(** * Engagement classification engine of ad-format-analytics

    A shallow embedding of [databricks_pipeline/label_data_as_viral.py]
    ([compute_engagement] and its helpers) together with the pandas
    operations it is written with, and of the percentile calibrator
    [get_top_engagement_from_both] that [data_pipeline/main.py] calls.

    A data frame is the list of its rows in positional order.  A cell of
    a raw column is [None] when pandas coerces it to NaN / NaT
    ([errors='coerce']) and [Some v] otherwise; timestamps and counters
    are integers.  The quotient by the window size and the product with
    the viral multiplier are taken in exact rationals, kept in lowest
    terms, where the code computes in double precision: the sum of a
    window is the same in both as long as 50 times the largest likes
    count stays below 2^53, the code then rounds the quotient and the
    product to the nearest double, and a comparison that the exact
    product decides by less than this rounding can come out differently
    in the code (likes 115 against an estimate of 100).

    The first part takes the rows of a table with their [username]
    present; the part on rows without a username, [compute_engagement_df],
    takes the table as it comes, drops those rows where the code does and
    is proved to agree with the first part on the rest. *)

From Stdlib Require Import List String Ascii Bool Arith ZArith QArith Qround Lia.
From Stdlib Require Import Permutation Sorted OrderedTypeEx.
Import ListNotations.

Set Implicit Arguments.

Local Open Scope Z_scope.

(** ** Generic frame operations *)

Section Frame.

Variable A : Type.

(** [DataFrame.sort_values] on several keys is a stable sort: a row is
    placed in front of the first row that does not precede it, so rows
    with equal keys keep their input order. *)
Section SortValues.
Variable le : A -> A -> bool.

Fixpoint insert_sorted (x : A) (l : list A) : list A :=
  match l with
  | [] => [x]
  | y :: l' => if le x y then x :: l else y :: insert_sorted x l'
  end.

Fixpoint sort_values (l : list A) : list A :=
  match l with
  | [] => []
  | x :: l' => insert_sorted x (sort_values l')
  end.
End SortValues.

(** [DataFrame.groupby(key)]. *)
Section GroupBy.
Variable key : A -> string.

(** Row order of a sort on [key] ascending, then on a second column
    whose order is [sub]. *)
Definition by_key_then (sub : A -> A -> bool) (r1 r2 : A) : bool :=
  match String.compare (key r1) (key r2) with
  | Lt => true
  | Eq => sub r1 r2
  | Gt => false
  end.

(** [get_group]: the rows of one group, in frame order. *)
Definition group (u : string) (l : list A) : list A :=
  filter (fun r => String.eqb (key r) u) l.

(** [cumcount]: each row is numbered with the count of earlier rows
    of its own group. *)
Fixpoint cumcount_from (seen : list A) (l : list A) : list nat :=
  match l with
  | [] => []
  | r :: l' =>
      List.length (group (key r) seen) :: cumcount_from (r :: seen) l'
  end.

Definition cumcount (l : list A) : list nat := cumcount_from [] l.

(** [filter(func)]: keeps the rows whose whole group satisfies [func]. *)
Definition groupby_filter (func : list A -> bool) (l : list A) : list A :=
  filter (fun r => func (group (key r) l)) l.

(** [groupby(key, group_keys=False)[col].apply(func)]: [func] maps the
    column of one group to a series on the same index; the results are
    aligned back on the frame, a missing position reading [dflt]. *)
Definition groupby_apply (B C : Type) (col : A -> B)
    (func : list B -> list C) (dflt : C) (l : list A) : list C :=
  map (fun ri : A * nat =>
         nth (snd ri) (func (map col (group (key (fst ri)) l))) dflt)
      (combine l (cumcount l)).

(** [head(n)]: the first [n] rows of every group, in frame order. *)
Definition groupby_head (n : nat) (l : list A) : list A :=
  map fst (filter (fun ri : A * nat => (snd ri <? n)%nat)
                  (combine l (cumcount l))).
End GroupBy.

End Frame.

(** ** Rolling statistics on a series *)

Definition sum_Z (l : list Z) : Z := fold_right Z.add 0 l.

Definition mean (l : list Z) : Q :=
  Qred (inject_Z (sum_Z l) / inject_Z (Z.of_nat (List.length l))).

(** [Series.rolling(window, min_periods).mean()]: position [j] sees the
    (at most [window]) values ending at [j]. *)
Definition rolling_mean (window min_periods : nat) (l : list Z)
  : list (option Q) :=
  map (fun j =>
         let w := skipn (S j - window) (firstn (S j) l) in
         if (min_periods <=? List.length w)%nat then Some (mean w) else None)
      (seq 0 (List.length l)).

(** [Series.shift(-1)]: every value moves one position up, the last
    position becomes NaN. *)
Definition shift_neg1 (B : Type) (l : list (option B)) : list (option B) :=
  match l with
  | [] => []
  | _ :: t => t ++ [None]
  end.

(** ** The data model *)

(** A row of the bronze table handed to [compute_engagement]. *)
Record RawPost := mkRawPost {
  raw_username : string;
  raw_post_id : string;
  raw_date : option Z;
  raw_likes : option Z;
  raw_views : option Z;
  raw_comments : option Z;
  raw_duration : option Z
}.

(** A row after steps 1 and 2 (dates parsed, counters numeric). *)
Record Post := mkPost {
  username : string;
  post_id : string;
  date : option Z;
  likes : Z;
  views : Z;
  comments : Z;
  duration : Z
}.

(** A row with its [post_number] column. *)
Record Ranked := mkRanked {
  r_post : Post;
  post_number : nat
}.

(** A row of the result, with [avg_last_50] and [viral]. *)
Record Labeled := mkLabeled {
  l_row : Ranked;
  avg_last_50 : option Q;
  viral : Z
}.

Definition l_username (r : Labeled) : string := username (r_post (l_row r)).
Definition l_post_number (r : Labeled) : nat := post_number (l_row r).
Definition l_likes (r : Labeled) : Z := likes (r_post (l_row r)).
Definition l_date (r : Labeled) : option Z := date (r_post (l_row r)).
Definition r_username (r : Ranked) : string := username (r_post r).

(** ** [label_data_as_viral.py] *)

(** [_ensure_numeric]: [to_numeric(errors='coerce').fillna(default)]. *)
Definition _ensure_numeric (cell : option Z) (default : Z) : Z :=
  match cell with
  | Some v => v
  | None => default
  end.

(** Steps 1 and 2 on one row. *)
Definition normalize (r : RawPost) : Post :=
  {| username := raw_username r;
     post_id := raw_post_id r;
     date := raw_date r;
     likes := _ensure_numeric (raw_likes r) 0;
     views := _ensure_numeric (raw_views r) 0;
     comments := _ensure_numeric (raw_comments r) 0;
     duration := _ensure_numeric (raw_duration r) 0 |}.

(** Descending order on timestamps with NaT last ([na_position='last']). *)
Definition date_desc_le (d1 d2 : option Z) : bool :=
  match d1, d2 with
  | Some a, Some b => b <=? a
  | Some _, None => true
  | None, Some _ => false
  | None, None => true
  end.

Definition date_order (r1 r2 : Post) : bool :=
  date_desc_le (date r1) (date r2).

Definition post_number_order (r1 r2 : Ranked) : bool :=
  (post_number r1 <=? post_number r2)%nat.

(** Row order of [sort_values(['username','date'], ascending=[True,False])]. *)
Definition by_username_date : Post -> Post -> bool :=
  by_key_then username date_order.

(** Row order of [sort_values(['username','post_number'])]. *)
Definition by_username_post_number : Ranked -> Ranked -> bool :=
  by_key_then r_username post_number_order.

(** Step 4: [df.groupby('username').cumcount() + 1]. *)
Definition assign_post_number (l : list Post) : list Ranked :=
  map (fun ri : Post * nat => mkRanked (fst ri) (snd ri + 1))
      (combine l (cumcount username l)).

(** Steps 1 to 6: the ranked table. *)
Definition ranked (df : list RawPost) : list Ranked :=
  let df1 := map normalize df in
  let df3 := sort_values by_username_date df1 in
  let df4 := assign_post_number df3 in
  let df5 := groupby_filter r_username (fun x => (1 <=? List.length x)%nat) df4 in
  sort_values by_username_post_number df5.

(** Step 7, the inner function, for a window of [w] posts. *)
Definition avg_next (w : nat) (likes : list Z) : list (option Q) :=
  shift_neg1 (rev (rolling_mean w w (rev likes))).

Definition avg_next_50 : list Z -> list (option Q) := avg_next 50.

Definition Qltb (x y : Q) : bool := negb (Qle_bool y x).

(** Step 8 on one row: [likes > avg_last_50 * multiplier], as an int;
    a comparison with NaN is false. *)
Definition label (multiplier : Q) (r : Ranked) (avg : option Q) : Labeled :=
  {| l_row := r;
     avg_last_50 := avg;
     viral := match avg with
              | Some a =>
                  if Qltb (a * multiplier) (inject_Z (likes (r_post r)))
                  then 1 else 0
              | None => 0
              end |}.

(** Steps 1 to 8: the labeled table before the per-account cap. *)
Definition labeled_with (multiplier : Q) (df : list RawPost) : list Labeled :=
  let df6 := ranked df in
  let avg := groupby_apply r_username (fun r => likes (r_post r))
                           avg_next_50 None df6 in
  map (fun ra : Ranked * option Q => label multiplier (fst ra) (snd ra))
      (combine df6 avg).

(** Steps 1 to 9 with the viral multiplier as a parameter. *)
Definition compute_engagement_with (multiplier : Q) (df : list RawPost)
  : list Labeled :=
  groupby_head l_username 50 (labeled_with multiplier df).

Definition viral_multiplier : Q := 115 # 100.

Definition labeled : list RawPost -> list Labeled :=
  labeled_with viral_multiplier.

Definition compute_engagement : list RawPost -> list Labeled :=
  compute_engagement_with viral_multiplier.

(** ** The percentile calibrator *)

(** The size [ceil(p * n)] of the top fraction [p] of [n] items. *)
Definition top_count (p : Q) (n : nat) : nat :=
  Z.to_nat (Qceiling (p * inject_Z (Z.of_nat n))).

Definition descending (a b : Z) : bool := b <=? a.

(** Modelled from the spec: the body of [get_top_engagement_from_both],
    whose module [label_data_as_viral] of [data_pipeline] is missing (only
    the call in [data_pipeline/main.py] is there).  For one collection:
    sort descending and take the [ceil(p * n)]-th value from the top; no
    threshold when there is no such value, as for an empty collection. *)
Definition top_engagement_threshold (p : Q) (l : list Z) : option Z :=
  match top_count p (List.length l) with
  | O => None
  | S k => nth_error (sort_values descending l) k
  end.

(** Modelled from the spec: [get_top_engagement_from_both], one threshold
    per collection, each from its own collection. *)
Definition get_top_engagement_from_both (ad_data cat_data : list Z)
    (top_percent : Q) : option Z * option Z :=
  (top_engagement_threshold top_percent ad_data,
   top_engagement_threshold top_percent cat_data).

(** ** Notions used in the statements *)

(** The table of step 7, before the label is computed. *)
Definition estimated (df : list RawPost) : list (Ranked * option Q) :=
  combine (ranked df)
          (groupby_apply r_username (fun r => likes (r_post r))
                         avg_next_50 None (ranked df)).

(** The value that [avg_next w] leaves at position [i] of a series: the
    mean of the [w] values that follow position [i], when there are [w]. *)
Definition window_mean (w : nat) (l : list Z) (i : nat) : option Q :=
  if (i + w <? List.length l)%nat
  then Some (mean (firstn w (skipn (S i) l)))
  else None.

Definition number (ri : Post * nat) : Ranked :=
  mkRanked (fst ri) (snd ri + 1).

(** The posts of an account in the order in which they are ranked. *)
Definition account_sorted (g : list RawPost) : list Post :=
  sort_values date_order (map normalize g).

(** The ranked rows of an account whose input rows are [g]. *)
Definition account_ranked (g : list RawPost) : list Ranked :=
  let s := account_sorted g in
  map number (combine s (seq 0 (List.length s))).

(** Its labeled rows, before the cap. *)
Definition account_labeled (multiplier : Q) (g : list RawPost)
  : list Labeled :=
  let rk := account_ranked g in
  map (fun ra : Ranked * option Q => label multiplier (fst ra) (snd ra))
      (combine rk (avg_next_50 (map (fun r => likes (r_post r)) rk))).

Definition date_eqb (d1 d2 : option Z) : bool :=
  match d1, d2 with
  | Some a, Some b => a =? b
  | None, None => true
  | _, _ => false
  end.

(** The number of rows labeled viral. *)
Definition count_viral (l : list Labeled) : nat :=
  List.length (filter (fun r => viral r =? 1) l).

(** Dropping the derived columns of a result gives a table that can be
    handed to [compute_engagement] again. *)
Definition strip (r : Labeled) : RawPost :=
  let p := r_post (l_row r) in
  {| raw_username := username p;
     raw_post_id := post_id p;
     raw_date := date p;
     raw_likes := Some (likes p);
     raw_views := Some (views p);
     raw_comments := Some (comments p);
     raw_duration := Some (duration p) |}.

(** A row with its estimate undefined and its label 0. *)
Definition unlabel (r : Labeled) : Labeled :=
  {| l_row := l_row r; avg_last_50 := None; viral := 0 |}.

(** A frame whose groups follow each other in ascending key order. *)
Definition keys_sorted (A : Type) (key : A -> string) (l : list A) : Prop :=
  StronglySorted (fun a b => String.leb (key a) (key b) = true) l.

(** The number of items at or above, and strictly above, a threshold. *)
Definition count_ge (t : Z) (l : list Z) : nat :=
  List.length (filter (fun x => t <=? x) l).

Definition count_gt (t : Z) (l : list Z) : nat :=
  List.length (filter (fun x => t <? x) l).

(** What the threshold of one collection is. *)
Definition is_top_threshold (p : Q) (l : list Z) (t : Z) : Prop :=
  let k := top_count p (List.length l) in
  (1 <= k <= List.length l)%nat /\
  nth_error (sort_values descending l) (k - 1) = Some t /\
  (k <= count_ge t l)%nat /\
  (count_gt t l < k)%nat /\
  (NoDup l -> count_ge t l = k).

(** The columns of interest of a result. *)
Definition columns (r : Labeled) : nat * Z * option Q * Z :=
  (l_post_number r, l_likes r, avg_last_50 r, viral r).

(** ** Scenario tables *)

Definition raw (u : string) (d : option Z) (l : Z) : RawPost :=
  mkRawPost u EmptyString d (Some l) None None None.

Definition raw_id (u id : string) (d : option Z) (l : Z) : RawPost :=
  mkRawPost u id d (Some l) None None None.

(** Scenario A: 51 posts on days 1..51 with likes 51, 50, ..., 1. *)
Definition alice : list RawPost :=
  map (fun i => raw "alice" (Some (Z.of_nat i)) (52 - Z.of_nat i)) (seq 1 51).

(** 51 posts with 1 like each, except the newest one, which has 100. *)
Definition bob : list RawPost :=
  map (fun i => raw "bob" (Some (Z.of_nat i)) (if (i =? 51)%nat then 100 else 1))
      (seq 1 51).

(** Scenario B: 60 posts with 100 likes each. *)
Definition sixty : list RawPost :=
  map (fun i => raw "sixty" (Some (Z.of_nat i)) 100) (seq 1 60).

(** Scenario C: one post with a million likes. *)
Definition solo : list RawPost := [raw "solo" (Some 1) 1000000].

(** Two accounts; in the first one two posts share a day and two have
    no parsable date. *)
Definition ties : list RawPost :=
  [ raw_id "u" "a" (Some 5) 10; raw_id "v" "x" (Some 9) 1;
    raw_id "u" "b" None 20;     raw_id "u" "c" (Some 7) 30;
    raw_id "u" "d" (Some 5) 40; raw_id "v" "y" None 2;
    raw_id "u" "e" None 50 ].

(** The same two posts of one day, in either input order. *)
Definition tie1 : list RawPost :=
  [raw_id "u" "a" (Some 5) 10; raw_id "u" "b" (Some 5) 20].

Definition tie2 : list RawPost :=
  [raw_id "u" "b" (Some 5) 20; raw_id "u" "a" (Some 5) 10].

(** 51 posts of one account, the first of the input without a parsable
    date. *)
Definition carol : list RawPost :=
  raw_id "carol" "undated" None 7 ::
  map (fun i => raw_id "carol" "dated" (Some (Z.of_nat i)) 1) (seq 1 50).

(** 51 posts whose likes count is -1 (a hidden counter). *)
Definition hidden : list RawPost :=
  map (fun i => raw "hidden" (Some (Z.of_nat i)) (-1)) (seq 1 51).

(** ** The table with its null usernames *)

(** [Some] of the values of a list that have one, in order. *)
Fixpoint keep_some (A B : Type) (f : A -> option B) (l : list A) : list B :=
  match l with
  | [] => []
  | x :: l' =>
      match f x with
      | Some y => y :: keep_some f l'
      | None => keep_some f l'
      end
  end.

(** A row of the bronze table; [username] is [None] when it is null. *)
Record BronzeRow := mkBronzeRow {
  b_username : option string;
  b_post_id : string;
  b_date : option Z;
  b_likes : option Z;
  b_views : option Z;
  b_comments : option Z;
  b_duration : option Z
}.

(** The same row after steps 1 and 2. *)
Record CleanRow := mkCleanRow {
  c_username : option string;
  c_post_id : string;
  c_date : option Z;
  c_likes : Z;
  c_views : Z;
  c_comments : Z;
  c_duration : Z
}.

Definition clean (r : BronzeRow) : CleanRow :=
  {| c_username := b_username r;
     c_post_id := b_post_id r;
     c_date := b_date r;
     c_likes := _ensure_numeric (b_likes r) 0;
     c_views := _ensure_numeric (b_views r) 0;
     c_comments := _ensure_numeric (b_comments r) 0;
     c_duration := _ensure_numeric (b_duration r) 0 |}.

(** Row order of [sort_values(['username','date'], ascending=[True,False])]
    on a column of names with nulls: a null name comes last, as a null
    date does ([na_position='last']). *)
Definition by_username_date_na (r1 r2 : CleanRow) : bool :=
  match c_username r1, c_username r2 with
  | Some a, Some b =>
      match String.compare a b with
      | Lt => true
      | Eq => date_desc_le (c_date r1) (c_date r2)
      | Gt => false
      end
  | Some _, None => true
  | None, Some _ => false
  | None, None => date_desc_le (c_date r1) (c_date r2)
  end.

Definition same_username (u : string) (r : CleanRow) : bool :=
  match c_username r with
  | Some v => String.eqb v u
  | None => false
  end.

(** [groupby('username').cumcount()]: [groupby] leaves the rows with a null
    key out of every group ([dropna=True]), and [cumcount] gives them
    NaN. *)
Fixpoint cumcount_na_from (seen l : list CleanRow) : list (option nat) :=
  match l with
  | [] => []
  | r :: l' =>
      match c_username r with
      | Some u => Some (List.length (filter (same_username u) seen))
      | None => None
      end :: cumcount_na_from (r :: seen) l'
  end.

Definition cumcount_na (l : list CleanRow) : list (option nat) :=
  cumcount_na_from [] l.

(** Step 4 on such a table: [cumcount() + 1], NaN staying NaN. *)
Definition assign_post_number_na (l : list CleanRow)
  : list (CleanRow * option nat) :=
  combine l (map (option_map (fun n => (n + 1)%nat)) (cumcount_na l)).

(** A row with a username, as a [Post]. *)
Definition named_post (r : CleanRow) : option Post :=
  match c_username r with
  | Some u =>
      Some {| username := u;
              post_id := c_post_id r;
              date := c_date r;
              likes := c_likes r;
              views := c_views r;
              comments := c_comments r;
              duration := c_duration r |}
  | None => None
  end.

(** Step 5 on such a table: [groupby('username').filter(func)] keeps the
    rows of the groups that satisfy [func]; a row with a null username is
    in no group and is dropped.  The rows that are kept have a username
    and a post number and are held as [Ranked] rows from here on. *)
Definition groupby_filter_na (func : list (CleanRow * option nat) -> bool)
    (l : list (CleanRow * option nat)) : list Ranked :=
  keep_some
    (fun rn : CleanRow * option nat =>
       match named_post (fst rn), snd rn with
       | Some p, Some n =>
           if func (filter (fun sn : CleanRow * option nat =>
                              same_username (username p) (fst sn)) l)
           then Some (mkRanked p n)
           else None
       | _, _ => None
       end)
    l.

(** Steps 1 to 6 on the table as it comes. *)
Definition ranked_df (df : list BronzeRow) : list Ranked :=
  let df1 := map clean df in
  let df3 := sort_values by_username_date_na df1 in
  let df4 := assign_post_number_na df3 in
  let df5 := groupby_filter_na (fun x => (1 <=? List.length x)%nat) df4 in
  sort_values by_username_post_number df5.

(** Steps 7 and 8 on a ranked table. *)
Definition label_rows (multiplier : Q) (df6 : list Ranked) : list Labeled :=
  let avg := groupby_apply r_username (fun r => likes (r_post r))
                           avg_next_50 None df6 in
  map (fun ra : Ranked * option Q => label multiplier (fst ra) (snd ra))
      (combine df6 avg).

(** Steps 1 to 8, and [compute_engagement] itself, on the table as it
    comes. *)
Definition labeled_df (df : list BronzeRow) : list Labeled :=
  label_rows viral_multiplier (ranked_df df).

Definition compute_engagement_df (df : list BronzeRow) : list Labeled :=
  groupby_head l_username 50 (labeled_df df).

(** The rows of a table that have a username. *)
Definition named_raw (r : BronzeRow) : option RawPost :=
  match b_username r with
  | Some u =>
      Some {| raw_username := u;
              raw_post_id := b_post_id r;
              raw_date := b_date r;
              raw_likes := b_likes r;
              raw_views := b_views r;
              raw_comments := b_comments r;
              raw_duration := b_duration r |}
  | None => None
  end.

Definition named (df : list BronzeRow) : list RawPost :=
  keep_some named_raw df.

(** A row with its username present, and one without. *)
Definition bronze (x : RawPost) : BronzeRow :=
  {| b_username := Some (raw_username x);
     b_post_id := raw_post_id x;
     b_date := raw_date x;
     b_likes := raw_likes x;
     b_views := raw_views x;
     b_comments := raw_comments x;
     b_duration := raw_duration x |}.

Definition nameless (id : string) (d : option Z) (l : Z) : BronzeRow :=
  mkBronzeRow None id d (Some l) None None None.

(** The table [ties] with two rows without a username among its rows. *)
Definition ties_df : list BronzeRow :=
  nameless "n1" None 5 :: map bronze ties ++ [nameless "n2" (Some 8) 6].


(** ** Post ids: [extract_post_id_from_url] and its siblings *)

(** [str.rstrip(c)]: the string without its trailing [c]s. *)
Fixpoint rstrip (c : ascii) (s : string) : string :=
  match s with
  | EmptyString => EmptyString
  | String a s' =>
      match rstrip c s' with
      | EmptyString =>
          if Ascii.eqb a c then EmptyString else String a EmptyString
      | r => String a r
      end
  end.

(** [str.split(c)]: the pieces between the [c]s, one more than there are
    [c]s. *)
Fixpoint split (c : ascii) (s : string) : list string :=
  match s with
  | EmptyString => [EmptyString]
  | String a s' =>
      if Ascii.eqb a c then EmptyString :: split c s'
      else match split c s' with
           | h :: t => String a h :: t
           | [] => [String a EmptyString]
           end
  end.

(** [x in l]. *)
Definition list_contains (x : string) (l : list string) : bool :=
  existsb (String.eqb x) l.

(** [l.index(x)]; [None] stands for the ValueError. *)
Fixpoint list_index (x : string) (l : list string) : option nat :=
  match l with
  | [] => None
  | y :: l' =>
      if String.eqb y x then Some 0%nat else option_map S (list_index x l')
  end.

(** [l[i]] and [l[-k]]; [None] stands for the IndexError. *)
Definition getitem (l : list string) (i : nat) : option string :=
  nth_error l i.

Definition getitem_neg (l : list string) (k : nat) : option string :=
  if (k <=? List.length l)%nat then nth_error l (List.length l - k) else None.

(** [extract_post_id_from_url] of [data_pipeline/main.py]; [None] is the
    [None] that the bare [except] returns. *)
Definition extract_post_id_from_url (url : string) : option string :=
  let parts := split "/" (rstrip "/" url) in
  if list_contains "p" parts then
    match list_index "p" parts with
    | Some p_index =>
        if (p_index + 1 <? List.length parts)%nat
        then getitem parts (p_index + 1)
        else getitem_neg parts 1
    | None => None
    end
  else
    match getitem_neg parts 1 with
    | Some post_id =>
        if String.eqb post_id "" then getitem_neg parts 2 else Some post_id
    | None => None
    end.

(** [extract_post_id] of the Gemini services.  It catches IndexError and
    ValueError only, and its last line is outside the [try]: [None] stands
    for an exception that leaves the function. *)
Definition extract_post_id (post_url : string) : option string :=
  let parts := split "/" (rstrip "/" post_url) in
  let fallback := getitem_neg (split "/" (rstrip "/" post_url)) 1 in
  if list_contains "p" parts then
    match list_index "p" parts with
    | Some p_index =>
        match getitem parts (p_index + 1) with
        | Some post_id => Some post_id
        | None => fallback
        end
    | None => fallback
    end
  else fallback.

(** The [extract_post_id] nested in [data_pipeline/test_minimal_pipeline.py];
    [None] is the [None] that the bare [except] returns. *)
Definition extract_post_id_minimal (url : string) : option string :=
  let parts := split "/" (rstrip "/" url) in
  if list_contains "p" parts then
    match list_index "p" parts with
    | Some p_index => getitem parts (p_index + 1)
    | None => None
    end
  else
    match getitem_neg parts 1 with
    | Some post_id =>
        if String.eqb post_id "" then getitem_neg parts 2 else Some post_id
    | None => None
    end.

(** The character [c] occurs in [s]; [s] is made of [c]s only. *)
Fixpoint contains (c : ascii) (s : string) : bool :=
  match s with
  | EmptyString => false
  | String a s' => Ascii.eqb a c || contains c s'
  end.

Fixpoint only (c : ascii) (s : string) : bool :=
  match s with
  | EmptyString => true
  | String a s' => Ascii.eqb a c && only c s'
  end.

(** * Facts on the frame operations *)

(** ** The order on account names *)

Lemma compare_refl (a : string) : String.compare a a = Eq.
Proof. apply String_as_OT.cmp_eq. reflexivity. Qed.

Lemma compare_Lt_trans (a b c : string) :
  String.compare a b = Lt -> String.compare b c = Lt ->
  String.compare a c = Lt.
Proof.
  intros H1 H2. apply String_as_OT.cmp_lt.
  apply String_as_OT.lt_trans with b; apply String_as_OT.cmp_lt; assumption.
Qed.

Lemma compare_Gt_Lt (a b : string) :
  String.compare a b = Gt <-> String.compare b a = Lt.
Proof.
  rewrite (String.compare_antisym a b).
  destruct (String.compare b a); simpl; split; congruence.
Qed.

Lemma compare_Eq_eq (a b : string) : String.compare a b = Eq <-> a = b.
Proof. apply String_as_OT.cmp_eq. Qed.

Lemma eqb_compare (a b : string) :
  String.eqb a b = match String.compare a b with Eq => true | _ => false end.
Proof.
  destruct (String.eqb_spec a b) as [->|n].
  - now rewrite compare_refl.
  - destruct (String.compare a b) eqn:E; auto.
    apply compare_Eq_eq in E. contradiction.
Qed.

(** ** Stable sorting *)

Section SortFacts.

Variable A : Type.
Variable le : A -> A -> bool.

Lemma insert_sorted_perm (x : A) (l : list A) :
  Permutation (insert_sorted le x l) (x :: l).
Proof.
  induction l as [|y l IH]; simpl; auto.
  destruct (le x y); auto.
  rewrite IH. apply perm_swap.
Qed.

Lemma sort_values_perm (l : list A) : Permutation (sort_values le l) l.
Proof.
  induction l as [|x l IH]; simpl; auto.
  rewrite insert_sorted_perm. auto.
Qed.

Lemma sort_values_In (x : A) (l : list A) :
  In x (sort_values le l) <-> In x l.
Proof.
  split; apply Permutation_in;
    [apply sort_values_perm | symmetry; apply sort_values_perm].
Qed.

Lemma sort_values_length (l : list A) :
  List.length (sort_values le l) = List.length l.
Proof. apply Permutation_length, sort_values_perm. Qed.

Lemma insert_sorted_front (x : A) (l : list A) :
  Forall (fun y => le x y = true) l -> insert_sorted le x l = x :: l.
Proof.
  destruct 1 as [|y l Hy _]; simpl; auto. now rewrite Hy.
Qed.

(** A frame that is already in order is left as it is. *)
Lemma sort_values_sorted_id (l : list A) :
  StronglySorted (fun a b => le a b = true) l -> sort_values le l = l.
Proof.
  induction 1 as [|x l Hs IH Hx]; simpl; auto.
  rewrite IH. now apply insert_sorted_front.
Qed.

Hypothesis le_total : forall a b, le a b = true \/ le b a = true.
Hypothesis le_trans :
  forall a b c, le a b = true -> le b c = true -> le a c = true.

Lemma insert_sorted_sorted (x : A) (l : list A) :
  StronglySorted (fun a b => le a b = true) l ->
  StronglySorted (fun a b => le a b = true) (insert_sorted le x l).
Proof.
  induction 1 as [|y l Hs IH Hy]; simpl.
  - repeat constructor.
  - destruct (le x y) eqn:E.
    + constructor; [now constructor|].
      constructor; auto.
      eapply Forall_impl; [|exact Hy]. simpl. eauto.
    + constructor; auto.
      assert (Hyx : le y x = true) by (destruct (le_total x y); congruence).
      eapply Permutation_Forall; [symmetry; apply insert_sorted_perm|].
      constructor; auto.
Qed.

Lemma sort_values_sorted (l : list A) :
  StronglySorted (fun a b => le a b = true) (sort_values le l).
Proof.
  induction l; simpl; [constructor | now apply insert_sorted_sorted].
Qed.

(** Selecting rows commutes with the stable sort. *)
Lemma filter_insert_sorted (p : A -> bool) (x : A) (l : list A) :
  StronglySorted (fun a b => le a b = true) l ->
  filter p (insert_sorted le x l) =
  if p x then insert_sorted le x (filter p l) else filter p l.
Proof.
  induction 1 as [|y l Hs IH Hy]; simpl.
  - destruct (p x); reflexivity.
  - destruct (le x y) eqn:E; simpl.
    + destruct (p x) eqn:Px; auto.
      symmetry. apply insert_sorted_front.
      assert (Hall : Forall (fun z => le x z = true) (y :: l)).
      { constructor; auto.
        eapply Forall_impl; [|exact Hy]. simpl. eauto. }
      apply Forall_forall. intros z Hz.
      change (In z (filter p (y :: l))) in Hz.
      apply filter_In in Hz.
      rewrite Forall_forall in Hall. now apply Hall.
    + rewrite IH.
      destruct (p y), (p x); simpl; auto. now rewrite E.
Qed.

Lemma filter_sort_values (p : A -> bool) (l : list A) :
  filter p (sort_values le l) = sort_values le (filter p l).
Proof.
  induction l as [|x l IH]; simpl; auto.
  rewrite filter_insert_sorted by apply sort_values_sorted.
  rewrite IH. destruct (p x); reflexivity.
Qed.

End SortFacts.

(** The result of a sort only depends on how the order compares the rows
    of the frame. *)
Lemma insert_sorted_ext (A : Type) (le1 le2 : A -> A -> bool) (x : A)
    (l : list A) :
  (forall y, In y l -> le1 x y = le2 x y) ->
  insert_sorted le1 x l = insert_sorted le2 x l.
Proof.
  induction l as [|y l IH]; simpl; intros H; auto.
  rewrite (H y) by auto. rewrite IH by auto. reflexivity.
Qed.

Lemma sort_values_ext (A : Type) (le1 le2 : A -> A -> bool) (l : list A) :
  (forall x y, In x l -> In y l -> le1 x y = le2 x y) ->
  sort_values le1 l = sort_values le2 l.
Proof.
  induction l as [|x l IH]; simpl; intros H; auto.
  rewrite IH by auto.
  apply insert_sorted_ext. intros y Hy.
  apply sort_values_In in Hy. auto.
Qed.

Lemma map_insert_sorted (A B : Type) (f : A -> B) (le : A -> A -> bool)
    (le' : B -> B -> bool) (x : A) (l : list A) :
  (forall a b, le' (f a) (f b) = le a b) ->
  map f (insert_sorted le x l) = insert_sorted le' (f x) (map f l).
Proof.
  intros H. induction l as [|y l IH]; simpl; auto.
  rewrite H. destruct (le x y); simpl; congruence.
Qed.

Lemma map_sort_values (A B : Type) (f : A -> B) (le : A -> A -> bool)
    (le' : B -> B -> bool) (l : list A) :
  (forall a b, le' (f a) (f b) = le a b) ->
  map f (sort_values le l) = sort_values le' (map f l).
Proof.
  intros H. induction l as [|x l IH]; simpl; auto.
  rewrite <- IH. now apply map_insert_sorted.
Qed.

(** ** Grouping *)

Lemma filter_all (A : Type) (p : A -> bool) (l : list A) :
  (forall x, In x l -> p x = true) -> filter p l = l.
Proof.
  induction l as [|x l IH]; simpl; intros H; auto.
  rewrite H by auto. rewrite IH by auto. reflexivity.
Qed.

Lemma filter_none (A : Type) (p : A -> bool) (l : list A) :
  (forall x, In x l -> p x = false) -> filter p l = [].
Proof.
  induction l as [|x l IH]; simpl; intros H; auto.
  rewrite H by auto. auto.
Qed.

Lemma filter_comm (A : Type) (p q : A -> bool) (l : list A) :
  filter p (filter q l) = filter q (filter p l).
Proof.
  induction l as [|x l IH]; simpl; auto.
  destruct (p x) eqn:P, (q x) eqn:Q; simpl; rewrite ?P, ?Q, IH; auto.
Qed.

Lemma filter_map_comm (A B : Type) (f : A -> B) (p : B -> bool) (l : list A) :
  filter p (map f l) = map f (filter (fun x => p (f x)) l).
Proof.
  induction l as [|x l IH]; simpl; auto.
  destruct (p (f x)); simpl; congruence.
Qed.

Lemma combine_map_combine (A B C : Type) (F : A * B -> C) (l : list A)
    (m : list B) :
  combine l (map F (combine l m)) =
  map (fun ri => (fst ri, F ri)) (combine l m).
Proof.
  revert m. induction l as [|x l IH]; intros [|y m]; simpl; auto.
  now rewrite IH.
Qed.

Lemma map_nth_seq (A : Type) (d : A) (l : list A) :
  map (fun i => nth i l d) (seq 0 (List.length l)) = l.
Proof.
  induction l as [|x l IH]; simpl; auto.
  rewrite <- seq_shift, map_map. simpl. now rewrite IH.
Qed.

Lemma combine_map_r (A B C : Type) (f : B -> C) (l : list A) (m : list B) :
  combine l (map f m) = map (fun ri => (fst ri, f (snd ri))) (combine l m).
Proof.
  revert m. induction l as [|x l IH]; intros [|y m]; simpl; auto.
  now rewrite IH.
Qed.

Lemma map_fst_combine (A B : Type) (l : list A) (m : list B) :
  List.length l = List.length m -> map fst (combine l m) = l.
Proof.
  revert m. induction l as [|x l IH]; intros [|y m]; simpl; intros H;
    try discriminate; auto.
  rewrite IH; auto.
Qed.

Lemma map_snd_combine (A B : Type) (l : list A) (m : list B) :
  List.length l = List.length m -> map snd (combine l m) = m.
Proof.
  revert m. induction l as [|x l IH]; intros [|y m]; simpl; intros H;
    try discriminate; auto.
  rewrite IH; auto.
Qed.

Section GroupFacts.

Variable A : Type.
Variable key : A -> string.

Lemma group_In (u : string) (x : A) (l : list A) :
  In x (group key u l) <-> In x l /\ key x = u.
Proof.
  unfold group. rewrite filter_In, String.eqb_eq. reflexivity.
Qed.

Lemma group_cons_same (r : A) (l : list A) :
  group key (key r) (r :: l) = r :: group key (key r) l.
Proof. unfold group. simpl. now rewrite String.eqb_refl. Qed.

Lemma group_group (u : string) (l : list A) :
  group key u (group key u l) = group key u l.
Proof.
  apply filter_all. intros x Hx. apply group_In in Hx.
  apply String.eqb_eq. tauto.
Qed.

Lemma group_group_other (u v : string) (l : list A) :
  u <> v -> group key u (group key v l) = [].
Proof.
  intros Huv. apply filter_none. intros x Hx. apply group_In in Hx.
  apply String.eqb_neq. destruct Hx as [_ ->]. congruence.
Qed.

Lemma cumcount_from_length (seen l : list A) :
  List.length (cumcount_from key seen l) = List.length l.
Proof.
  revert seen. induction l as [|r l IH]; simpl; intros seen; auto.
Qed.

Lemma cumcount_length (l : list A) :
  List.length (cumcount key l) = List.length l.
Proof. apply cumcount_from_length. Qed.

(** Within one group [cumcount] counts 0, 1, 2, ... in frame order. *)
Lemma group_cumcount_from (u : string) (seen l : list A) :
  filter (fun ri : A * nat => String.eqb (key (fst ri)) u)
         (combine l (cumcount_from key seen l)) =
  combine (group key u l)
          (seq (List.length (group key u seen))
               (List.length (group key u l))).
Proof.
  revert seen. induction l as [|r l IH]; intros seen; simpl; auto.
  rewrite IH. unfold group at 2 4 5. simpl.
  destruct (String.eqb_spec (key r) u) as [->|Hne]; simpl; auto.
Qed.

Lemma group_cumcount (u : string) (l : list A) :
  filter (fun ri : A * nat => String.eqb (key (fst ri)) u)
         (combine l (cumcount key l)) =
  combine (group key u l) (seq 0 (List.length (group key u l))).
Proof. apply (group_cumcount_from u [] l). Qed.

Lemma head_combine_seq (n s : nat) (g : list A) :
  map fst (filter (fun ri : A * nat => (snd ri <? n)%nat)
                  (combine g (seq s (List.length g)))) =
  firstn (n - s) g.
Proof.
  revert s. induction g as [|x g IH]; intros s; simpl.
  - now rewrite firstn_nil.
  - destruct (Nat.ltb_spec s n) as [Hlt|Hge]; simpl; rewrite IH.
    + replace (n - s)%nat with (S (n - S s)) by lia. reflexivity.
    + replace (n - s)%nat with 0%nat by lia.
      replace (n - S s)%nat with 0%nat by lia. reflexivity.
Qed.

(** [head(n)] keeps the first [n] rows of each group. *)
Lemma group_groupby_head (u : string) (n : nat) (l : list A) :
  group key u (groupby_head key n l) = firstn n (group key u l).
Proof.
  unfold groupby_head, group at 1.
  rewrite filter_map_comm, filter_comm, group_cumcount, head_combine_seq.
  now rewrite Nat.sub_0_r.
Qed.

(** [apply] hands each group its own column and puts the result back
    on the rows of that group. *)
Lemma group_groupby_apply (B C : Type) (col : A -> B)
    (func : list B -> list C) (dflt : C) (u : string) (l : list A) :
  List.length (func (map col (group key u l))) =
  List.length (group key u l) ->
  filter (fun rc : A * C => String.eqb (key (fst rc)) u)
         (combine l (groupby_apply key col func dflt l)) =
  combine (group key u l) (func (map col (group key u l))).
Proof.
  intros Hlen. unfold groupby_apply.
  rewrite combine_map_combine, filter_map_comm. simpl.
  rewrite group_cumcount.
  rewrite <- (map_nth_seq dflt (func (map col (group key u l)))) at 1.
  rewrite Hlen, combine_map_r.
  apply map_ext_in. intros [r i] Hri. simpl.
  apply in_combine_l in Hri. apply group_In in Hri.
  destruct Hri as [_ ->]. reflexivity.
Qed.

(** No group is empty, so a filter on [len(x) >= 1] keeps every row. *)
Lemma groupby_filter_nonempty (l : list A) :
  groupby_filter key (fun x => (1 <=? List.length x)%nat) l = l.
Proof.
  apply filter_all. intros r Hr. apply Nat.leb_le.
  assert (H : In r (group key (key r) l)) by (apply group_In; auto).
  destruct (group key (key r) l); [destruct H | simpl; lia].
Qed.

(** *** Sorting on the group key first *)

Variable sub : A -> A -> bool.
Hypothesis sub_total : forall a b, sub a b = true \/ sub b a = true.
Hypothesis sub_trans :
  forall a b c, sub a b = true -> sub b c = true -> sub a c = true.

Lemma by_key_then_total (a b : A) :
  by_key_then key sub a b = true \/ by_key_then key sub b a = true.
Proof.
  unfold by_key_then. rewrite (String.compare_antisym (key b) (key a)).
  destruct (String.compare (key a) (key b)); simpl; auto.
Qed.

Lemma by_key_then_trans (a b c : A) :
  by_key_then key sub a b = true -> by_key_then key sub b c = true ->
  by_key_then key sub a c = true.
Proof.
  unfold by_key_then.
  destruct (String.compare (key a) (key b)) eqn:Eab; try discriminate;
    destruct (String.compare (key b) (key c)) eqn:Ebc; try discriminate;
    intros H1 H2.
  - apply compare_Eq_eq in Eab, Ebc. rewrite Eab, Ebc, compare_refl.
    eauto.
  - apply compare_Eq_eq in Eab. now rewrite Eab, Ebc.
  - apply compare_Eq_eq in Ebc. now rewrite <- Ebc, Eab.
  - now rewrite (compare_Lt_trans _ _ _ Eab Ebc).
Qed.

Lemma by_key_then_same (a b : A) :
  key a = key b -> by_key_then key sub a b = sub a b.
Proof. unfold by_key_then. intros ->. now rewrite compare_refl. Qed.

(** A sort on (key, second column), seen from inside one group, is the
    sort of that group on the second column. *)
Lemma group_sort_values (u : string) (l : list A) :
  group key u (sort_values (by_key_then key sub) l) =
  sort_values sub (group key u l).
Proof.
  unfold group at 1.
  rewrite filter_sort_values
    by (auto using by_key_then_total || eauto using by_key_then_trans).
  apply sort_values_ext. intros x y Hx Hy.
  apply group_In in Hx, Hy. apply by_key_then_same.
  destruct Hx as [_ ->], Hy as [_ ->]. reflexivity.
Qed.

End GroupFacts.

(** ** The look-ahead window *)

Lemma sum_Z_app (l1 l2 : list Z) : sum_Z (l1 ++ l2) = sum_Z l1 + sum_Z l2.
Proof. induction l1 as [|x l1 IH]; simpl; [reflexivity | rewrite IH; ring]. Qed.

Lemma sum_Z_rev (l : list Z) : sum_Z (rev l) = sum_Z l.
Proof.
  induction l as [|x l IH]; simpl; auto.
  rewrite sum_Z_app, IH. simpl. ring.
Qed.

Lemma mean_rev (l : list Z) : mean (rev l) = mean l.
Proof. unfold mean. now rewrite sum_Z_rev, length_rev. Qed.

Lemma rev_map_seq (B : Type) (f : nat -> B) (n : nat) :
  rev (map f (seq 0 n)) = map (fun i => f (n - 1 - i)%nat) (seq 0 n).
Proof.
  induction n as [|n IH].
  - reflexivity.
  - rewrite seq_S at 1. rewrite map_app, rev_app_distr. simpl rev at 1.
    simpl app. rewrite IH. simpl seq. simpl map.
    f_equal; [f_equal; lia|].
    rewrite <- seq_shift, map_map.
    apply map_ext. intros i. f_equal. lia.
Qed.

Lemma shift_neg1_map_seq (B : Type) (g : nat -> option B) (n : nat) :
  shift_neg1 (map g (seq 0 n)) =
  map (fun i => if (S i <? n)%nat then g (S i) else None) (seq 0 n).
Proof.
  destruct n as [|m]; [reflexivity|].
  rewrite seq_S at 2. rewrite map_app. simpl.
  rewrite Nat.ltb_irrefl. f_equal.
  rewrite <- seq_shift, map_map.
  apply map_ext_in. intros i Hi. apply in_seq in Hi.
  destruct (Nat.ltb_spec (S i) (S m)); [reflexivity | lia].
Qed.

(** Reversing, rolling backwards, reversing again and shifting by one is
    the mean of the next [w] values. *)
Lemma avg_next_window (w : nat) (l : list Z) :
  (0 < w)%nat ->
  avg_next w l = map (window_mean w l) (seq 0 (List.length l)).
Proof.
  intros Hw. unfold avg_next, rolling_mean.
  rewrite length_rev, rev_map_seq, shift_neg1_map_seq.
  apply map_ext_in. intros i Hi. apply in_seq in Hi.
  unfold window_mean.
  set (n := List.length l) in *.
  destruct (Nat.ltb_spec (S i) n) as [Hlt|Hge].
  - replace (S (n - 1 - S i)) with (n - S i)%nat by lia.
    rewrite firstn_rev, skipn_rev, length_skipn. fold n.
    replace (n - (n - S i))%nat with (S i) by lia.
    rewrite length_rev, length_firstn, length_skipn. fold n.
    destruct (Nat.ltb_spec (i + w) n) as [Hin|Hout].
    + replace (n - S i - (n - S i - w))%nat with w by lia.
      replace (Nat.min w (n - S i)) with w by lia.
      rewrite Nat.leb_refl, mean_rev. reflexivity.
    + destruct (Nat.leb_spec w
        (Nat.min (n - S i - (n - S i - w)) (n - S i))); [lia | reflexivity].
  - destruct (Nat.ltb_spec (i + w) n); [lia | reflexivity].
Qed.

Lemma avg_next_length (w : nat) (l : list Z) :
  List.length (avg_next w l) = List.length l.
Proof.
  unfold avg_next, shift_neg1.
  destruct (rev (rolling_mean w w (rev l))) as [|x t] eqn:E.
  - apply (f_equal (@List.length _)) in E.
    unfold rolling_mean in E.
    rewrite length_rev, length_map, length_seq, length_rev in E.
    now rewrite <- E.
  - apply (f_equal (@List.length _)) in E.
    unfold rolling_mean in E.
    rewrite length_rev, length_map, length_seq, length_rev in E.
    rewrite length_app. simpl in *. lia.
Qed.

(** * The pipeline, account by account *)

Lemma date_desc_le_total (a b : option Z) :
  date_desc_le a b = true \/ date_desc_le b a = true.
Proof.
  destruct a as [x|], b as [y|]; simpl; auto.
  destruct (Z.leb_spec y x); auto. right. apply Z.leb_le. lia.
Qed.

Lemma date_desc_le_trans (a b c : option Z) :
  date_desc_le a b = true -> date_desc_le b c = true ->
  date_desc_le a c = true.
Proof.
  destruct a as [x|], b as [y|], c as [z|]; simpl; auto; try discriminate.
  rewrite !Z.leb_le. lia.
Qed.

Lemma date_order_total (a b : Post) :
  date_order a b = true \/ date_order b a = true.
Proof. apply date_desc_le_total. Qed.

Lemma date_order_trans (a b c : Post) :
  date_order a b = true -> date_order b c = true -> date_order a c = true.
Proof. apply date_desc_le_trans. Qed.

Lemma post_number_order_total (a b : Ranked) :
  post_number_order a b = true \/ post_number_order b a = true.
Proof.
  unfold post_number_order.
  destruct (Nat.leb_spec (post_number a) (post_number b)); auto.
  right. apply Nat.leb_le. lia.
Qed.

Lemma post_number_order_trans (a b c : Ranked) :
  post_number_order a b = true -> post_number_order b c = true ->
  post_number_order a c = true.
Proof. unfold post_number_order. rewrite !Nat.leb_le. lia. Qed.

Lemma numbered_sorted (s : list Post) (k : nat) :
  StronglySorted (fun a b => post_number_order a b = true)
                 (map number (combine s (seq k (List.length s)))).
Proof.
  revert k. induction s as [|x s IH]; intros k; simpl; constructor; auto.
  apply Forall_forall. intros r Hr.
  apply in_map_iff in Hr. destruct Hr as [[p i] [<- Hpi]].
  apply in_combine_r, in_seq in Hpi.
  unfold post_number_order. simpl. apply Nat.leb_le. lia.
Qed.

Lemma group_normalize (u : string) (df : list RawPost) :
  group username u (map normalize df) =
  map normalize (group raw_username u df).
Proof. unfold group. now rewrite filter_map_comm. Qed.

(** Steps 1 to 6 sort the posts of an account on their date, latest
    first, and number them from 1. *)
Lemma group_ranked (u : string) (df : list RawPost) :
  group r_username u (ranked df) = account_ranked (group raw_username u df).
Proof.
  unfold ranked, account_ranked, by_username_post_number.
  rewrite (@group_sort_values _ r_username _
             post_number_order_total post_number_order_trans).
  rewrite groupby_filter_nonempty.
  unfold assign_post_number, group at 1.
  rewrite filter_map_comm.
  change (fun x : Post * nat =>
            String.eqb (r_username (mkRanked (fst x) (snd x + 1))) u)
    with (fun x : Post * nat => String.eqb (username (fst x)) u).
  rewrite group_cumcount.
  unfold by_username_date.
  rewrite (@group_sort_values _ username _
             date_order_total date_order_trans).
  rewrite group_normalize.
  apply sort_values_sorted_id, numbered_sorted.
Qed.

(** Steps 7 and 8 give every post the mean of the next 50 rows of its
    own account. *)
Lemma group_labeled_with (m : Q) (u : string) (df : list RawPost) :
  group l_username u (labeled_with m df) =
  account_labeled m (group raw_username u df).
Proof.
  unfold labeled_with, account_labeled, group at 1.
  rewrite filter_map_comm.
  change (fun x : Ranked * option Q =>
            String.eqb (l_username (label m (fst x) (snd x))) u)
    with (fun x : Ranked * option Q => String.eqb (r_username (fst x)) u).
  rewrite group_groupby_apply
    by (unfold avg_next_50; now rewrite avg_next_length, length_map).
  now rewrite group_ranked.
Qed.

(** Step 9 keeps the first 50 of them. *)
Lemma group_compute_engagement_with (m : Q) (u : string) (df : list RawPost) :
  group l_username u (compute_engagement_with m df) =
  firstn 50 (account_labeled m (group raw_username u df)).
Proof.
  unfold compute_engagement_with.
  now rewrite group_groupby_head, group_labeled_with.
Qed.

(** ** The rows of one account, position by position *)

Lemma combine_map_seq (A B C : Type) (f : A * nat -> B) (h : nat -> C)
    (s : list A) (t : list nat) :
  combine (map f (combine s t)) (map h t) =
  map (fun pi => (f pi, h (snd pi))) (combine s t).
Proof.
  revert t. induction s as [|x s IH]; intros [|y t]; simpl; auto.
  now rewrite IH.
Qed.

Lemma nth_error_combine_seq (A : Type) (s : list A) (k i : nat) :
  nth_error (combine s (seq k (List.length s))) i =
  option_map (fun p => (p, (k + i)%nat)) (nth_error s i).
Proof.
  revert k i. induction s as [|x s IH]; intros k [|i]; simpl; auto.
  - now rewrite Nat.add_0_r.
  - rewrite IH. now rewrite Nat.add_succ_r.
Qed.

Lemma StronglySorted_nth_error (A : Type) (R : A -> A -> Prop) (l : list A)
    (i j : nat) (a b : A) :
  StronglySorted R l -> (i < j)%nat ->
  nth_error l i = Some a -> nth_error l j = Some b -> R a b.
Proof.
  intros Hs. revert i j. induction Hs as [|x l Hs IH Hx]; intros i j Hij Hi Hj.
  - destruct i; discriminate.
  - destruct j as [|j]; [lia|]. destruct i as [|i]; simpl in *.
    + injection Hi as <-. rewrite Forall_forall in Hx.
      apply Hx. eapply nth_error_In; eauto.
    + apply (IH i j); auto. lia.
Qed.

Lemma account_sorted_length (g : list RawPost) :
  List.length (account_sorted g) = List.length g.
Proof. unfold account_sorted. now rewrite sort_values_length, length_map. Qed.

Lemma account_sorted_sorted (g : list RawPost) :
  StronglySorted (fun a b => date_order a b = true) (account_sorted g).
Proof.
  apply sort_values_sorted;
    [apply date_order_total | apply date_order_trans].
Qed.

Lemma account_sorted_perm (g : list RawPost) :
  Permutation (account_sorted g) (map normalize g).
Proof. apply sort_values_perm. Qed.

Lemma account_ranked_likes (g : list RawPost) :
  map (fun r => likes (r_post r)) (account_ranked g) =
  map likes (account_sorted g).
Proof.
  unfold account_ranked. fold (account_sorted g).
  rewrite map_map. simpl.
  rewrite <- (map_map fst likes), map_fst_combine; auto.
  now rewrite length_seq.
Qed.

(** Row [i] of an account is its [(i+1)]-th latest post, with the mean of
    the likes of rows [i+1 .. i+50] when they exist. *)
Lemma account_labeled_closed (m : Q) (g : list RawPost) :
  account_labeled m g =
  map (fun pi : Post * nat =>
         label m (number pi)
               (window_mean 50 (map likes (account_sorted g)) (snd pi)))
      (combine (account_sorted g) (seq 0 (List.length (account_sorted g)))).
Proof.
  unfold account_labeled. rewrite account_ranked_likes.
  unfold avg_next_50. rewrite avg_next_window by lia.
  rewrite length_map. unfold account_ranked. fold (account_sorted g).
  now rewrite combine_map_seq, map_map.
Qed.

Lemma account_labeled_nth_error (m : Q) (g : list RawPost) (i : nat) :
  nth_error (account_labeled m g) i =
  option_map (fun p => label m (mkRanked p (i + 1))
                         (window_mean 50 (map likes (account_sorted g)) i))
             (nth_error (account_sorted g) i).
Proof.
  rewrite account_labeled_closed, nth_error_map, nth_error_combine_seq.
  destruct (nth_error (account_sorted g) i); reflexivity.
Qed.

Lemma account_labeled_length (m : Q) (g : list RawPost) :
  List.length (account_labeled m g) = List.length g.
Proof.
  rewrite account_labeled_closed, length_map, length_combine, length_seq.
  now rewrite Nat.min_id, account_sorted_length.
Qed.

Lemma account_labeled_posts (m : Q) (g : list RawPost) :
  map (fun r => r_post (l_row r)) (account_labeled m g) = account_sorted g.
Proof.
  rewrite account_labeled_closed, map_map. simpl.
  apply map_fst_combine. now rewrite length_seq.
Qed.

Lemma account_labeled_post_numbers (m : Q) (g : list RawPost) :
  map l_post_number (account_labeled m g) = seq 1 (List.length g).
Proof.
  rewrite account_labeled_closed, map_map. unfold l_post_number. simpl.
  rewrite <- (map_map snd (fun i => (i + 1)%nat)).
  rewrite map_snd_combine by now rewrite length_seq.
  rewrite account_sorted_length, <- seq_shift.
  apply map_ext. intros; lia.
Qed.

Lemma account_labeled_likes (m : Q) (g : list RawPost) :
  map l_likes (account_labeled m g) = map likes (account_sorted g).
Proof.
  rewrite <- account_labeled_posts with (m := m), map_map. reflexivity.
Qed.

(** ** Rows of the result *)

Lemma groupby_head_incl (A : Type) (key : A -> string) (n : nat) (l : list A)
    (x : A) :
  In x (groupby_head key n l) -> In x l.
Proof.
  unfold groupby_head. intros H.
  apply in_map_iff in H. destruct H as [[y i] [<- H]].
  apply filter_In in H. destruct H as [H _].
  now apply in_combine_l in H.
Qed.

Lemma in_own_group (A : Type) (key : A -> string) (l : list A) (x : A) :
  In x l <-> In x (group key (key x) l).
Proof. rewrite group_In. tauto. Qed.

(** Every row before the cap is a post of its account, numbered by its
    position in the account and labeled from the window that follows. *)
Lemma labeled_with_row (m : Q) (df : list RawPost) (r : Labeled) :
  In r (labeled_with m df) ->
  let s := account_sorted (group raw_username (l_username r) df) in
  exists (i : nat) (p : Post),
    nth_error s i = Some p /\
    r = label m (mkRanked p (i + 1)) (window_mean 50 (map likes s) i).
Proof.
  intros H s. apply in_own_group with (key := l_username) in H.
  rewrite group_labeled_with in H.
  apply In_nth_error in H. destruct H as [i Hi].
  rewrite account_labeled_nth_error in Hi. fold s in Hi.
  destruct (nth_error s i) as [p|] eqn:E; [|discriminate].
  exists i, p. split; auto. now injection Hi.
Qed.

Lemma compute_engagement_with_row (m : Q) (df : list RawPost) (r : Labeled) :
  In r (compute_engagement_with m df) <->
  In r (labeled_with m df) /\ (l_post_number r <= 50)%nat.
Proof.
  rewrite (in_own_group l_username (compute_engagement_with m df)).
  rewrite (in_own_group l_username (labeled_with m df)).
  rewrite group_compute_engagement_with, group_labeled_with.
  set (g := group raw_username (l_username r) df).
  split.
  - intros H. apply In_nth_error in H. destruct H as [i Hi].
    rewrite nth_error_firstn in Hi.
    destruct (Nat.ltb_spec i 50) as [Hlt|]; [|discriminate].
    split; [eapply nth_error_In; eauto|].
    rewrite account_labeled_nth_error in Hi.
    destruct (nth_error (account_sorted g) i); [|discriminate].
    injection Hi as Hr. rewrite <- Hr. unfold l_post_number. simpl. lia.
  - intros [H Hle]. apply In_nth_error in H. destruct H as [i Hi].
    apply nth_error_In with i. rewrite nth_error_firstn.
    assert (Hi' := Hi). rewrite account_labeled_nth_error in Hi'.
    destruct (nth_error (account_sorted g) i); [|discriminate].
    injection Hi' as Hr. rewrite <- Hr in Hle.
    unfold l_post_number in Hle. simpl in Hle.
    destruct (Nat.ltb_spec i 50); [assumption | lia].
Qed.

Lemma window_mean_short (w : nat) (l : list Z) (i : nat) :
  (List.length l <= i + w)%nat -> window_mean w l i = None.
Proof.
  intros H. unfold window_mean.
  destruct (Nat.ltb_spec (i + w) (List.length l)); [lia | reflexivity].
Qed.

Lemma in_window (A : Type) (l : list A) (i w : nat) (x : A) :
  In x (firstn w (skipn (S i) l)) ->
  exists j, (i < j <= i + w)%nat /\ nth_error l j = Some x.
Proof.
  intros H. apply In_nth_error in H. destruct H as [k Hk].
  rewrite nth_error_firstn in Hk.
  destruct (Nat.ltb_spec k w); [|discriminate].
  rewrite nth_error_skipn in Hk.
  exists (S i + k)%nat. split; [lia | assumption].
Qed.

(** * The claims *)

(** C1, as the code has it.  With the posts of an account in ascending
    [post_number] order, the post at position [i] has [post_number = i+1]
    and its [avg_last_50] is the arithmetic mean of the likes of the 50
    posts at positions [i+1 .. i+50]; the estimate is undefined when fewer
    than 50 posts follow.  The posts of that window have larger post
    numbers and are not more recent: they are the 50 posts next older than
    the post.  For the account of scenario A (51 posts, likes 51, ..., 1
    from oldest to newest) only the newest post, [post_number = 1], has an
    estimate, the mean of 2..51, which is 53/2 = 26.5; after the cap the
    output holds posts 1..50. *)
Theorem avg_last_50_is_mean_of_next_50_rows :
  (forall (df : list RawPost) (u : string) (i : nat) (r : Labeled),
      let g := group l_username u (labeled df) in
      nth_error g i = Some r ->
      l_post_number r = S i /\
      avg_last_50 r =
        (if (50 <=? List.length (skipn (S i) g))%nat
         then Some (mean (map l_likes (firstn 50 (skipn (S i) g))))
         else None) /\
      (forall r' : Labeled,
          In r' (firstn 50 (skipn (S i) g)) ->
          (l_post_number r < l_post_number r')%nat /\
          date_desc_le (l_date r) (l_date r') = true)) /\
  map columns (labeled alice) =
    (1%nat, 1, Some (53 # 2), 0) ::
    map (fun p => (p, Z.of_nat p, None, 0)) (seq 2 50) /\
  map columns (compute_engagement alice) =
    (1%nat, 1, Some (53 # 2), 0) ::
    map (fun p => (p, Z.of_nat p, None, 0)) (seq 2 49).
Proof.
  split; [|split; vm_compute; reflexivity].
  intros df u i r g Hi.
  assert (Hg : g = account_labeled viral_multiplier (group raw_username u df))
    by apply group_labeled_with.
  set (gr := group raw_username u df) in *.
  assert (Hi' := Hi). rewrite Hg, account_labeled_nth_error in Hi'.
  destruct (nth_error (account_sorted gr) i) as [p|] eqn:Ep; [|discriminate].
  injection Hi' as Hr.
  assert (Hlen : List.length g = List.length (account_sorted gr))
    by (rewrite Hg, account_labeled_length; symmetry;
        apply account_sorted_length).
  assert (Hlikes : map l_likes g = map likes (account_sorted gr))
    by (rewrite Hg; apply account_labeled_likes).
  split; [|split].
  - rewrite <- Hr. unfold l_post_number. simpl. lia.
  - rewrite <- Hr. cbn [avg_last_50 label]. unfold window_mean.
    rewrite length_skipn, Hlen, length_map.
    rewrite <- firstn_map, <- skipn_map, Hlikes.
    destruct (Nat.ltb_spec (i + 50) (List.length (account_sorted gr)));
      destruct (Nat.leb_spec 50 (List.length (account_sorted gr) - S i));
      try lia; reflexivity.
  - intros r' Hr'. apply in_window in Hr'. destruct Hr' as [j [Hj Hr']].
    rewrite Hg, account_labeled_nth_error in Hr'.
    destruct (nth_error (account_sorted gr) j) as [p'|] eqn:Ep';
      [|discriminate].
    injection Hr' as Hr'. rewrite <- Hr, <- Hr'.
    unfold l_post_number, l_date. simpl. split; [lia|].
    apply (StronglySorted_nth_error (account_sorted_sorted gr)
             (proj1 Hj) Ep Ep').
Qed.

(** The estimate of scenario A sits on the newest post, not on the
    oldest one, and is 26.5, not 25.5. *)
Lemma alice_estimate_not_on_oldest_post :
  ~ (forall r : Labeled,
        In r (labeled alice) ->
        (l_post_number r = 51%nat -> avg_last_50 r = Some (51 # 2)) /\
        (l_post_number r <> 51%nat -> avg_last_50 r = None)).
Proof.
  intros H.
  assert (Hin : exists r, In r (labeled alice) /\
                          l_post_number r = 1%nat /\
                          avg_last_50 r = Some (53 # 2)).
  { remember (labeled alice) as t eqn:E. vm_compute in E. subst t.
    eexists. split; [left; reflexivity | split; reflexivity]. }
  destruct Hin as [r [Hin [Hn Ha]]].
  destruct (H r Hin) as [_ H2].
  rewrite H2 in Ha by (rewrite Hn; discriminate). discriminate.
Qed.

Lemma avg_last_50_is_mean_of_next_50_rows_witness :
  exists r : Labeled,
    nth_error (group l_username "alice" (labeled alice)) 0 = Some r /\
    l_post_number r = 1%nat /\
    avg_last_50 r = Some (53 # 2).
Proof.
  assert (E : { r | nth_error (group l_username "alice" (labeled alice)) 0
                    = Some r }).
  { vm_compute. eexists. reflexivity. }
  destruct E as [r E]. exists r. split; [exact E|].
  destruct (proj1 avg_last_50_is_mean_of_next_50_rows alice "alice"%string
              0%nat r E) as [Hn [Ha _]].
  split; [exact Hn|]. rewrite Ha. vm_compute. reflexivity.
Defined.

Lemma in_firstn (A : Type) (n : nat) (l : list A) (x : A) :
  In x (firstn n l) -> In x l.
Proof.
  intros H. rewrite <- (firstn_skipn n l). apply in_or_app. now left.
Qed.

Lemma in_skipn (A : Type) (n : nat) (l : list A) (x : A) :
  In x (skipn n l) -> In x l.
Proof.
  intros H. rewrite <- (firstn_skipn n l). apply in_or_app. now right.
Qed.

(** A post that is followed by fewer than 50 posts of its account has no
    estimate and is labeled 0, whatever the multiplier. *)
Lemma no_estimate_near_the_end (m : Q) (df : list RawPost) (r : Labeled) :
  In r (labeled_with m df) ->
  (List.length (group raw_username (l_username r) df)
   < l_post_number r + 50)%nat ->
  avg_last_50 r = None /\ viral r = 0.
Proof.
  intros Hin Hk.
  destruct (labeled_with_row _ _ _ Hin) as [i [p [Hp Hr]]].
  rewrite Hr in Hk. unfold l_post_number in Hk. simpl in Hk.
  rewrite window_mean_short in Hr.
  - rewrite Hr. split; reflexivity.
  - rewrite length_map, account_sorted_length.
    rewrite Hr. unfold l_username. simpl.
    unfold l_username in Hk. simpl in Hk. lia.
Qed.

Lemma short_account_rows (m : Q) (df : list RawPost) (r : Labeled) :
  (List.length (group raw_username (l_username r) df) <= 50)%nat ->
  In r (labeled_with m df) ->
  avg_last_50 r = None /\ viral r = 0.
Proof.
  intros Hk Hin. apply no_estimate_near_the_end with (m := m) (df := df);
    auto.
  destruct (labeled_with_row _ _ _ Hin) as [i [p [_ Hr]]].
  rewrite Hr in *. unfold l_post_number, l_username in *. simpl in *. lia.
Qed.

Lemma in_result_in_labeled (m : Q) (df : list RawPost) (r : Labeled) :
  In r (labeled_with m df) \/ In r (compute_engagement_with m df) ->
  In r (labeled_with m df).
Proof.
  intros [H|H]; auto. now apply compute_engagement_with_row in H.
Qed.

(** C2, as the code has it.  In every account of [k] posts, every post
    among the 50 oldest positions ([post_number > k - 50]) has an
    undefined rolling estimate and is labeled [viral = 0], before and
    after the cap: the oldest 50 posts of an account are never labeled
    viral. *)
Theorem oldest_50_posts_never_viral (df : list RawPost) (r : Labeled) :
  In r (labeled df) \/ In r (compute_engagement df) ->
  (List.length (group raw_username (l_username r) df)
   < l_post_number r + 50)%nat ->
  avg_last_50 r = None /\ viral r = 0.
Proof.
  intros Hin. apply no_estimate_near_the_end with (m := viral_multiplier).
  apply in_result_in_labeled. exact Hin.
Qed.

(** The newest post of an account of 51 posts has an estimate and is
    labeled viral. *)
Lemma bob_newest_post_is_viral :
  ~ (forall r : Labeled,
        In r (compute_engagement bob) ->
        (l_post_number r <= Nat.min 50 (List.length bob))%nat ->
        avg_last_50 r = None /\ viral r = 0).
Proof.
  intros H.
  assert (Hin : exists r, In r (compute_engagement bob) /\
                          l_post_number r = 1%nat /\ viral r = 1).
  { remember (compute_engagement bob) as t eqn:E. vm_compute in E. subst t.
    eexists. split; [left; reflexivity | split; reflexivity]. }
  destruct Hin as [r [Hin [Hn Hv]]].
  destruct (H r Hin) as [_ H2].
  - rewrite Hn. vm_compute. lia.
  - rewrite H2 in Hv. discriminate.
Qed.

Lemma oldest_50_posts_never_viral_witness :
  exists r : Labeled,
    In r (compute_engagement bob) /\ l_post_number r = 2%nat /\
    avg_last_50 r = None /\ viral r = 0.
Proof.
  assert (E : { r | nth_error (compute_engagement bob) 1 = Some r /\
                    l_username r = "bob"%string /\
                    l_post_number r = 2%nat }).
  { vm_compute. eexists. repeat split. }
  destruct E as [r [E [Hu Hn]]]. exists r.
  assert (Hin : In r (compute_engagement bob))
    by (eapply nth_error_In; exact E).
  split; [exact Hin | split; [exact Hn|]].
  apply (oldest_50_posts_never_viral bob r (or_intror Hin)).
  rewrite Hu, Hn. vm_compute. lia.
Defined.

(** C3.  In an account of fewer than 51 posts every post has an undefined
    rolling estimate and the label 0, before and after the cap; a single
    post with a million likes gets no estimate and the label 0. *)
Theorem short_account_never_viral :
  (forall (df : list RawPost) (u : string),
      (List.length (group raw_username u df) < 50 + 1)%nat ->
      forall r : Labeled,
        In r (labeled df) \/ In r (compute_engagement df) ->
        l_username r = u ->
        avg_last_50 r = None /\ viral r = 0) /\
  (forall (u : string) (d : option Z),
      map columns (compute_engagement [raw u d 1000000]) =
      [(1%nat, 1000000, None, 0)]).
Proof.
  split.
  - intros df u Hk r Hin Hu.
    assert (Hin' : In r (labeled_with viral_multiplier df))
      by (apply in_result_in_labeled; exact Hin).
    apply no_estimate_near_the_end with (df := df) (m := viral_multiplier);
      [exact Hin'|].
    rewrite Hu.
    destruct (labeled_with_row _ _ _ Hin') as [i [p [_ Hr]]].
    rewrite Hr. unfold l_post_number. simpl. lia.
  - intros u d.
    unfold compute_engagement, compute_engagement_with, labeled_with, ranked.
    rewrite groupby_filter_nonempty.
    cbn. rewrite !String.eqb_refl. reflexivity.
Qed.

Lemma short_account_never_viral_witness :
  Forall (fun r : Labeled => avg_last_50 r = None /\ viral r = 0)
         (compute_engagement solo).
Proof.
  apply Forall_forall. intros r Hin.
  assert (Hu : l_username r = "solo"%string).
  { revert Hin. vm_compute. intros [<-|[]]. reflexivity. }
  apply (proj1 short_account_never_viral solo "solo"%string);
    [vm_compute; lia | now right | exact Hu].
Defined.

Lemma account_sorted_In (g : list RawPost) (p : Post) :
  In p (account_sorted g) <-> exists x, In x g /\ normalize x = p.
Proof.
  unfold account_sorted. rewrite sort_values_In, in_map_iff.
  split; intros [x [H1 H2]]; exists x; tauto.
Qed.

Lemma window_mean_sixty (i : nat) :
  (i < 60)%nat ->
  window_mean 50 (repeat 100 60) i =
  if (i + 1 <=? 10)%nat then Some (100 # 1) else None.
Proof.
  intros Hi.
  do 60 (destruct i as [|i]; [vm_compute; reflexivity|]). lia.
Qed.

(** C4.  In an account of 60 posts with 100 likes each the posts are
    numbered 1..60, exactly those with [post_number] 1..10 have a rolling
    estimate, which is exactly 100, and every post is labeled [viral = 0],
    since 100 > 100 * 1.15 is false; this holds before and after the
    cap. *)
Theorem sixty_identical_posts (df : list RawPost) (u : string) :
  List.length (group raw_username u df) = 60%nat ->
  (forall x : RawPost,
      In x (group raw_username u df) -> raw_likes x = Some 100) ->
  map l_post_number (group l_username u (labeled df)) = seq 1 60 /\
  forall r : Labeled,
    In r (labeled df) \/ In r (compute_engagement df) ->
    l_username r = u ->
    avg_last_50 r =
      (if (l_post_number r <=? 10)%nat then Some (100 # 1) else None) /\
    viral r = 0.
Proof.
  intros Hk Hl. split.
  - unfold labeled. now rewrite group_labeled_with,
      account_labeled_post_numbers, Hk.
  - intros r Hin Hu.
    assert (Hin' : In r (labeled_with viral_multiplier df))
      by (apply in_result_in_labeled; exact Hin).
    destruct (labeled_with_row _ _ _ Hin') as [i [p [Hp Hr]]].
    rewrite Hu in Hp, Hr.
    set (s := account_sorted (group raw_username u df)) in *.
    assert (Hs : forall q, In q s -> likes q = 100).
    { intros q Hq. apply account_sorted_In in Hq.
      destruct Hq as [x [Hx <-]]. simpl. now rewrite (Hl x Hx). }
    assert (Hlen : List.length s = 60%nat)
      by (unfold s; now rewrite account_sorted_length).
    assert (HL : map likes s = repeat 100 60).
    { rewrite <- Hlen, <- (length_map likes s).
      apply Forall_eq_repeat, Forall_forall.
      intros z Hz. apply in_map_iff in Hz.
      destruct Hz as [q [<- Hq]]. symmetry. now apply Hs. }
    assert (Hi : (i < 60)%nat).
    { rewrite <- Hlen. apply nth_error_Some. congruence. }
    rewrite HL, (window_mean_sixty Hi) in Hr.
    rewrite Hr. unfold l_post_number. cbn [l_row post_number avg_last_50 viral label r_post].
    rewrite (Hs p) by (eapply nth_error_In; eauto).
    destruct (i + 1 <=? 10)%nat; split; reflexivity.
Qed.

Lemma sixty_identical_posts_witness :
  map columns (labeled sixty) =
    map (fun p => (p, 100, Some (100 # 1), 0)) (seq 1 10) ++
    map (fun p => (p, 100, None, 0)) (seq 11 50) /\
  Forall (fun r : Labeled =>
            avg_last_50 r =
              (if (l_post_number r <=? 10)%nat then Some (100 # 1) else None)
            /\ viral r = 0)
         (compute_engagement sixty).
Proof.
  split; [vm_compute; reflexivity|].
  apply Forall_forall. intros r Hin.
  assert (Hall : forallb (fun r => String.eqb (l_username r) "sixty")
                         (compute_engagement sixty) = true)
    by (vm_compute; reflexivity).
  assert (Hu : l_username r = "sixty"%string).
  { apply String.eqb_eq. revert r Hin. apply forallb_forall. exact Hall. }
  assert (Hk : List.length (group raw_username "sixty" sixty) = 60%nat)
    by (vm_compute; reflexivity).
  assert (Hl : forall x : RawPost,
             In x (group raw_username "sixty" sixty) ->
             raw_likes x = Some 100).
  { intros x Hx. apply group_In in Hx. destruct Hx as [Hx _].
    unfold sixty in Hx. apply in_map_iff in Hx.
    destruct Hx as [n [<- _]]. reflexivity. }
  destruct (sixty_identical_posts sixty "sixty" Hk Hl) as [_ H].
  apply H; [right; exact Hin | exact Hu].
Defined.

(** ** Ranking *)

Lemma date_eqb_eq (d1 d2 : option Z) : date_eqb d1 d2 = true <-> d1 = d2.
Proof.
  destruct d1 as [a|], d2 as [b|]; simpl; try (split; congruence).
  rewrite Z.eqb_eq. split; congruence.
Qed.

Lemma all_related_sorted (A : Type) (R : A -> A -> Prop) (l : list A) :
  (forall a b, In a l -> In b l -> R a b) -> StronglySorted R l.
Proof.
  induction l as [|x l IH]; intros H; constructor.
  - apply IH. intros a b Ha Hb. apply H; now right.
  - apply Forall_forall. intros b Hb. apply H; [now left | now right].
Qed.

(** Rows with the same timestamp leave the sort in their input order. *)
Lemma account_sorted_stable (g : list RawPost) (d : option Z) :
  filter (fun p => date_eqb (date p) d) (account_sorted g) =
  filter (fun p => date_eqb (date p) d) (map normalize g).
Proof.
  unfold account_sorted.
  rewrite (@filter_sort_values _ _ date_order_total date_order_trans).
  apply sort_values_sorted_id, all_related_sorted.
  intros a b Ha Hb. apply filter_In in Ha, Hb.
  destruct Ha as [_ Ha], Hb as [_ Hb]. apply date_eqb_eq in Ha, Hb.
  unfold date_order. rewrite Ha, Hb. destruct d; simpl; auto.
  apply Z.leb_refl.
Qed.

Lemma account_ranked_posts (g : list RawPost) :
  map r_post (account_ranked g) = account_sorted g.
Proof.
  unfold account_ranked. fold (account_sorted g).
  rewrite map_map. simpl. apply map_fst_combine. now rewrite length_seq.
Qed.

Lemma account_ranked_post_numbers (g : list RawPost) :
  map post_number (account_ranked g) = seq 1 (List.length g).
Proof.
  unfold account_ranked. fold (account_sorted g).
  rewrite map_map. simpl.
  rewrite <- (map_map snd (fun i => (i + 1)%nat)).
  rewrite map_snd_combine by now rewrite length_seq.
  rewrite account_sorted_length, <- seq_shift.
  apply map_ext. intros; lia.
Qed.

Lemma account_ranked_nth_error (g : list RawPost) (i : nat) :
  nth_error (account_ranked g) i =
  option_map (fun p => mkRanked p (i + 1)) (nth_error (account_sorted g) i).
Proof.
  unfold account_ranked. fold (account_sorted g).
  rewrite nth_error_map, nth_error_combine_seq.
  destruct (nth_error (account_sorted g) i); reflexivity.
Qed.

(** C6.  After ranking and before the cap, the post numbers of an account
    of [k] posts are exactly 1, ..., k in this order (no gap and no
    duplicate), and its rows are the posts of the account, all of them.
    A post with a smaller [post_number] is never older than one with a
    larger [post_number] (so number 1 is the latest post, a post without a
    parsable date counting as older than any dated one), a strictly later
    post has a strictly smaller [post_number], and the posts that share a
    timestamp stand in their input order. *)
Theorem post_numbers_are_contiguous_ranks (df : list RawPost) (u : string) :
  let g := group r_username u (ranked df) in
  let input := map normalize (group raw_username u df) in
  map post_number g = seq 1 (List.length input) /\
  Permutation (map r_post g) input /\
  (forall a b : Ranked,
      In a g -> In b g ->
      (post_number a < post_number b)%nat ->
      date_desc_le (date (r_post a)) (date (r_post b)) = true) /\
  (forall (a b : Ranked) (x y : Z),
      In a g -> In b g ->
      date (r_post a) = Some x -> date (r_post b) = Some y -> y < x ->
      (post_number a < post_number b)%nat) /\
  (forall d : option Z,
      filter (fun p => date_eqb (date p) d) (map r_post g) =
      filter (fun p => date_eqb (date p) d) input).
Proof.
  intros g input.
  assert (Hg : g = account_ranked (group raw_username u df))
    by apply group_ranked.
  set (gr := group raw_username u df) in *.
  assert (Hnth : forall a, In a g ->
            exists i, nth_error (account_sorted gr) i = Some (r_post a) /\
                      post_number a = (i + 1)%nat).
  { intros a Ha. rewrite Hg in Ha. apply In_nth_error in Ha.
    destruct Ha as [i Hi]. rewrite account_ranked_nth_error in Hi.
    exists i. destruct (nth_error (account_sorted gr) i); [|discriminate].
    injection Hi as <-. split; reflexivity. }
  assert (Hlt : forall a b, In a g -> In b g ->
            (post_number a < post_number b)%nat ->
            date_desc_le (date (r_post a)) (date (r_post b)) = true).
  { intros a b Ha Hb Hab.
    destruct (Hnth a Ha) as [i [Hi Hia]], (Hnth b Hb) as [j [Hj Hjb]].
    assert (Hij : (i < j)%nat) by lia.
    apply (StronglySorted_nth_error (account_sorted_sorted gr) Hij Hi Hj). }
  repeat split.
  - unfold input. rewrite Hg, account_ranked_post_numbers.
    now rewrite length_map.
  - rewrite Hg, account_ranked_posts. apply account_sorted_perm.
  - exact Hlt.
  - intros a b x y Ha Hb Hx Hy Hyx.
    destruct (Nat.lt_ge_cases (post_number a) (post_number b)) as [|Hge];
      [assumption|].
    destruct (Nat.eq_dec (post_number a) (post_number b)) as [He|Hne].
    + destruct (Hnth a Ha) as [i [Hi Hia]], (Hnth b Hb) as [j [Hj Hjb]].
      assert (i = j) by lia. subst j. rewrite Hi in Hj.
      injection Hj as Hj. rewrite Hj, Hy in Hx. injection Hx as ->. lia.
    + assert (H : date_desc_le (date (r_post b)) (date (r_post a)) = true)
        by (apply Hlt; auto; lia).
      rewrite Hx, Hy in H. simpl in H. apply Z.leb_le in H. lia.
  - intros d. rewrite Hg, account_ranked_posts. apply account_sorted_stable.
Qed.

Lemma post_numbers_are_contiguous_ranks_witness :
  map (fun r => (post_id (r_post r), post_number r))
      (group r_username "u" (ranked ties)) =
    [("c", 1); ("a", 2); ("d", 3); ("b", 4); ("e", 5)]%string%nat /\
  exists a b : Ranked,
    nth_error (group r_username "u" (ranked ties)) 0 = Some a /\
    nth_error (group r_username "u" (ranked ties)) 3 = Some b /\
    date_desc_le (date (r_post a)) (date (r_post b)) = true.
Proof.
  split; [vm_compute; reflexivity|].
  assert (E : { ab : Ranked * Ranked |
                nth_error (group r_username "u" (ranked ties)) 0
                = Some (fst ab) /\
                nth_error (group r_username "u" (ranked ties)) 3
                = Some (snd ab) /\
                post_number (fst ab) = 1%nat /\
                post_number (snd ab) = 4%nat }).
  { vm_compute. eexists (_, _). repeat split. }
  destruct E as [[a b] [Ha [Hb [Hna Hnb]]]]. cbn [fst snd] in *.
  exists a, b. split; [exact Ha | split; [exact Hb|]].
  destruct (post_numbers_are_contiguous_ranks ties "u") as [_ [_ [H _]]].
  apply H.
  - eapply nth_error_In; exact Ha.
  - eapply nth_error_In; exact Hb.
  - rewrite Hna, Hnb. lia.
Defined.

(** ** Locality *)

(** C9, as the code has it.  The result is a function of the input, and
    the rows it makes for an account depend only on the sequence of the
    input rows of that account: two inputs with the same rows of an
    account, in the same relative order, give that account the same rows,
    whatever the rows of the other accounts and wherever they stand. *)
Theorem account_rows_depend_on_own_sequence
    (df1 df2 : list RawPost) (u : string) :
  group raw_username u df1 = group raw_username u df2 ->
  group r_username u (ranked df1) = group r_username u (ranked df2) /\
  group l_username u (labeled df1) = group l_username u (labeled df2) /\
  group l_username u (compute_engagement df1) =
  group l_username u (compute_engagement df2).
Proof.
  intros H. unfold labeled, compute_engagement.
  rewrite !group_ranked, !group_labeled_with, !group_compute_engagement_with.
  rewrite H. auto.
Qed.

(** Two inputs that are permutations of each other, and two posts whose
    numbers are exchanged. *)
Lemma tied_posts_follow_input_order :
  Permutation tie1 tie2 /\
  ~ (forall r1 r2 : Labeled,
        In r1 (compute_engagement tie1) ->
        In r2 (compute_engagement tie2) ->
        r_post (l_row r1) = r_post (l_row r2) ->
        l_post_number r1 = l_post_number r2 /\
        avg_last_50 r1 = avg_last_50 r2 /\
        viral r1 = viral r2).
Proof.
  split; [apply perm_swap|].
  intros H.
  assert (E : exists r1 r2,
             In r1 (compute_engagement tie1) /\
             In r2 (compute_engagement tie2) /\
             r_post (l_row r1) = r_post (l_row r2) /\
             l_post_number r1 = 1%nat /\ l_post_number r2 = 2%nat).
  { remember (compute_engagement tie1) as t1 eqn:E1.
    remember (compute_engagement tie2) as t2 eqn:E2.
    vm_compute in E1, E2. subst t1 t2.
    eexists; eexists.
    split; [left; reflexivity|].
    split; [right; left; reflexivity|].
    repeat split. }
  destruct E as [r1 [r2 [H1 [H2 [Hp [Hn1 Hn2]]]]]].
  destruct (H r1 r2 H1 H2 Hp) as [Hn _]. congruence.
Qed.

Lemma account_rows_depend_on_own_sequence_witness :
  group l_username "u" (compute_engagement ties) =
  group l_username "u"
        (compute_engagement (filter (fun x => String.eqb (raw_username x) "u")
                                    ties)).
Proof.
  apply (account_rows_depend_on_own_sequence ties
           (filter (fun x => String.eqb (raw_username x) "u") ties) "u").
  vm_compute. reflexivity.
Defined.

(** ** The rows of a window *)



(** ** The viral multiplier *)

Lemma group_map (A B : Type) (key : A -> string) (key' : B -> string)
    (f : A -> B) (u : string) (l : list A) :
  (forall x, key' (f x) = key x) ->
  group key' u (map f l) = map f (group key u l).
Proof.
  intros H. unfold group. rewrite filter_map_comm.
  f_equal. apply filter_ext. intros x. now rewrite H.
Qed.

Lemma cumcount_from_map (A B : Type) (key : A -> string) (key' : B -> string)
    (f : A -> B) (seen l : list A) :
  (forall x, key' (f x) = key x) ->
  cumcount_from key' (map f seen) (map f l) = cumcount_from key seen l.
Proof.
  intros H. revert seen. induction l as [|r l IH]; intros seen; simpl; auto.
  rewrite (group_map key key' f _ seen H), length_map, H.
  f_equal. apply (IH (r :: seen)).
Qed.

(** [head(n)] selects rows on the group key alone. *)
Lemma groupby_head_map (A B : Type) (key : A -> string) (key' : B -> string)
    (f : A -> B) (n : nat) (l : list A) :
  (forall x, key' (f x) = key x) ->
  groupby_head key' n (map f l) = map f (groupby_head key n l).
Proof.
  intros H. unfold groupby_head, cumcount.
  change (cumcount_from key' [] (map f l))
    with (cumcount_from key' (map f []) (map f l)).
  rewrite (cumcount_from_map key key' f [] l H).
  generalize (cumcount_from key [] l). intros cc.
  revert cc. induction l as [|x l IH]; intros [|c cc]; simpl; auto.
  destruct (c <? n)%nat; simpl; now rewrite IH.
Qed.

Lemma filter_length_mono (A : Type) (p q : A -> bool) (l : list A) :
  (forall x, In x l -> p x = true -> q x = true) ->
  (List.length (filter p l) <= List.length (filter q l))%nat.
Proof.
  induction l as [|x l IH]; simpl; intros H; auto.
  assert (IH' := IH (fun y Hy => H y (or_intror Hy))).
  destruct (p x) eqn:P.
  - rewrite (H x (or_introl eq_refl) P). simpl. lia.
  - destruct (q x); simpl; lia.
Qed.

Lemma sum_Z_nonneg (l : list Z) : Forall (fun z => 0 <= z) l -> 0 <= sum_Z l.
Proof. induction 1; simpl; lia. Qed.

Lemma mean_nonneg (l : list Z) :
  Forall (fun z => 0 <= z) l -> (0 <= mean l)%Q.
Proof.
  intros H. unfold mean. rewrite Qred_correct.
  apply Qmult_le_0_compat.
  - unfold Qle. simpl. apply sum_Z_nonneg in H. lia.
  - apply Qinv_le_0_compat. unfold Qle. simpl. lia.
Qed.

Lemma window_mean_nonneg (w : nat) (l : list Z) (i : nat) (a : Q) :
  Forall (fun z => 0 <= z) l -> window_mean w l i = Some a -> (0 <= a)%Q.
Proof.
  intros H. unfold window_mean.
  destruct (i + w <? List.length l)%nat; [|discriminate].
  intros E. injection E as <-. apply mean_nonneg.
  rewrite Forall_forall in *. intros z Hz.
  apply H. apply in_skipn with (n := S i), in_firstn with (n := w).
  exact Hz.
Qed.

(** A larger multiplier labels no row viral that a smaller one does not,
    when the estimate is not negative. *)
Lemma label_antitone (m1 m2 : Q) (r : Ranked) (o : option Q) :
  (m1 <= m2)%Q ->
  (forall a, o = Some a -> (0 <= a)%Q) ->
  (viral (label m2 r o) =? 1) = true -> (viral (label m1 r o) =? 1) = true.
Proof.
  intros Hm Ho. destruct o as [a|]; simpl; auto.
  unfold Qltb.
  destruct (Qle_bool (inject_Z (likes (r_post r))) (a * m2)) eqn:E2;
    simpl; [discriminate|]. intros _.
  destruct (Qle_bool (inject_Z (likes (r_post r))) (a * m1)) eqn:E1;
    simpl; auto.
  apply Qle_bool_iff in E1.
  assert (H : (inject_Z (likes (r_post r)) <= a * m2)%Q).
  { eapply Qle_trans; [exact E1|].
    rewrite (Qmult_comm a m1), (Qmult_comm a m2).
    apply Qmult_le_compat_r; auto. }
  apply Qle_bool_iff in H. congruence.
Qed.

Lemma labeled_with_estimated (m : Q) (df : list RawPost) :
  labeled_with m df =
  map (fun ra : Ranked * option Q => label m (fst ra) (snd ra))
      (estimated df).
Proof. reflexivity. Qed.

Lemma estimated_nonneg (df : list RawPost) (r : Ranked) (a : Q) :
  (forall (x : RawPost) (v : Z),
      In x df -> raw_likes x = Some v -> 0 <= v) ->
  In (r, Some a) (estimated df) -> (0 <= a)%Q.
Proof.
  intros Hdf Hin.
  assert (Hl : In (label 1 r (Some a)) (labeled_with 1 df)).
  { rewrite labeled_with_estimated.
    apply in_map_iff. exists (r, Some a). split; auto. }
  destruct (labeled_with_row _ _ _ Hl) as [i [p [_ Hr]]].
  apply (f_equal avg_last_50) in Hr. simpl in Hr. symmetry in Hr.
  apply window_mean_nonneg in Hr; auto.
  apply Forall_forall. intros z Hz. apply in_map_iff in Hz.
  destruct Hz as [q [<- Hq]]. apply account_sorted_In in Hq.
  destruct Hq as [x [Hx <-]]. apply group_In in Hx. destruct Hx as [Hx _].
  simpl. destruct (raw_likes x) as [v|] eqn:E; simpl; [|lia].
  now apply (Hdf x v).
Qed.

(** C7, as the code has it.  On a table whose likes counts are not
    negative, a larger viral multiplier never labels more posts viral,
    before and after the cap, everything else being the same. *)
Theorem viral_count_antitone_in_multiplier
    (df : list RawPost) (m1 m2 : Q) :
  (forall (x : RawPost) (v : Z),
      In x df -> raw_likes x = Some v -> 0 <= v) ->
  (m1 <= m2)%Q ->
  (count_viral (labeled_with m2 df) <= count_viral (labeled_with m1 df))%nat /\
  (count_viral (compute_engagement_with m2 df)
   <= count_viral (compute_engagement_with m1 df))%nat.
Proof.
  intros Hdf Hm.
  assert (Hstep : forall X : list (Ranked * option Q),
            (forall ra, In ra X -> In ra (estimated df)) ->
            (count_viral (map (fun ra => label m2 (fst ra) (snd ra)) X)
             <= count_viral (map (fun ra => label m1 (fst ra) (snd ra)) X))%nat).
  { intros X HX. unfold count_viral.
    rewrite !filter_map_comm, !length_map.
    apply filter_length_mono. intros [r o] Hin. simpl.
    apply label_antitone; auto.
    intros a ->. apply (@estimated_nonneg df r a Hdf). now apply HX. }
  split.
  - rewrite !labeled_with_estimated. apply Hstep. auto.
  - unfold compute_engagement_with. rewrite !labeled_with_estimated.
    rewrite !(groupby_head_map (fun ra : Ranked * option Q =>
                                  r_username (fst ra)) l_username)
      by reflexivity.
    apply Hstep. intros ra. apply groupby_head_incl.
Qed.

(** With likes of -1 the estimate is negative, and raising the multiplier
    from 1 to 1.15 makes the newest post viral. *)
Lemma hidden_likes_break_antitony :
  (1 <= viral_multiplier)%Q /\
  count_viral (compute_engagement_with 1 hidden) = 0%nat /\
  count_viral (compute_engagement_with viral_multiplier hidden) = 1%nat /\
  ~ (count_viral (compute_engagement_with viral_multiplier hidden)
     <= count_viral (compute_engagement_with 1 hidden))%nat.
Proof.
  assert (H1 : count_viral (compute_engagement_with 1 hidden) = 0%nat)
    by (vm_compute; reflexivity).
  assert (H2 : count_viral (compute_engagement_with viral_multiplier hidden)
               = 1%nat)
    by (vm_compute; reflexivity).
  repeat split; auto.
  - vm_compute. discriminate.
  - rewrite H1, H2. lia.
Qed.

Lemma viral_count_antitone_in_multiplier_witness :
  (count_viral (compute_engagement_with (2 # 1) bob)
   <= count_viral (compute_engagement_with viral_multiplier bob))%nat.
Proof.
  apply (@viral_count_antitone_in_multiplier bob viral_multiplier (2 # 1)).
  - intros x v Hx Hv. unfold bob in Hx. apply in_map_iff in Hx.
    destruct Hx as [n [<- _]]. simpl in Hv.
    destruct (n =? 51)%nat; injection Hv as <-; lia.
  - vm_compute. discriminate.
Defined.

(** ** Running the pipeline again *)

Lemma StronglySorted_impl (A : Type) (R R' : A -> A -> Prop) (l : list A) :
  (forall a b, R a b -> R' a b) -> StronglySorted R l -> StronglySorted R' l.
Proof.
  intros H. induction 1 as [|x l Hs IH Hx]; constructor; auto.
  eapply Forall_impl; [|exact Hx]. auto.
Qed.

Lemma StronglySorted_filter (A : Type) (R : A -> A -> Prop) (p : A -> bool)
    (l : list A) :
  StronglySorted R l -> StronglySorted R (filter p l).
Proof.
  induction 1 as [|x l Hs IH Hx]; simpl; [constructor|].
  destruct (p x); auto. constructor; auto.
  rewrite Forall_forall in *. intros y Hy. apply filter_In in Hy.
  apply Hx. tauto.
Qed.

Lemma StronglySorted_firstn (A : Type) (R : A -> A -> Prop) (n : nat)
    (l : list A) :
  StronglySorted R l -> StronglySorted R (firstn n l).
Proof.
  intros H. revert n. induction H as [|x l Hs IH Hx]; intros [|n]; simpl;
    try constructor; auto.
  rewrite Forall_forall in *. intros y Hy. apply Hx.
  eapply in_firstn; eauto.
Qed.

Lemma StronglySorted_map (A B : Type) (R : B -> B -> Prop) (f : A -> B)
    (l : list A) :
  StronglySorted (fun a b => R (f a) (f b)) l -> StronglySorted R (map f l).
Proof.
  induction 1 as [|x l Hs IH Hx]; simpl; constructor; auto.
  rewrite Forall_forall in *. intros y Hy. apply in_map_iff in Hy.
  destruct Hy as [z [<- Hz]]. auto.
Qed.

Lemma StronglySorted_combine (A B : Type) (R : A -> A -> Prop) (l : list A)
    (m : list B) :
  StronglySorted R l ->
  StronglySorted (fun a b => R (fst a) (fst b)) (combine l m).
Proof.
  intros H. revert m. induction H as [|x l Hs IH Hx]; intros [|y m]; simpl;
    try constructor; auto.
  rewrite Forall_forall in *. intros [a b] Hab. simpl.
  apply Hx. eapply in_combine_l; eauto.
Qed.

Section KeysSorted.

Variable A : Type.
Variable key : A -> string.

Lemma keys_sorted_sort_values (sub : A -> A -> bool) (l : list A) :
  (forall a b, sub a b = true \/ sub b a = true) ->
  (forall a b c, sub a b = true -> sub b c = true -> sub a c = true) ->
  keys_sorted key (sort_values (by_key_then key sub) l).
Proof.
  intros Htot Htrans.
  apply StronglySorted_impl
    with (R := fun a b => by_key_then key sub a b = true).
  - intros a b. unfold by_key_then, String.leb.
    destruct (String.compare (key a) (key b)); auto.
  - apply sort_values_sorted.
    + now apply by_key_then_total.
    + intros a b c. now apply by_key_then_trans.
Qed.

Lemma keys_sorted_groupby_head (n : nat) (l : list A) :
  keys_sorted key l -> keys_sorted key (groupby_head key n l).
Proof.
  intros H. unfold groupby_head. apply StronglySorted_map.
  apply StronglySorted_filter.
  apply (StronglySorted_combine (cumcount key l) H).
Qed.

(** Two frames in key order with the same groups are the same frame. *)
Lemma keys_sorted_eq (l1 l2 : list A) :
  keys_sorted key l1 -> keys_sorted key l2 ->
  (forall u, group key u l1 = group key u l2) -> l1 = l2.
Proof.
  intros H1. revert l2. induction H1 as [|r l1 Hs IH Hr]; intros l2 H2 Hg.
  - destruct l2 as [|s l2]; auto.
    specialize (Hg (key s)). rewrite group_cons_same in Hg. discriminate.
  - destruct l2 as [|s l2].
    + specialize (Hg (key r)). rewrite group_cons_same in Hg. discriminate.
    + inversion H2 as [|? ? Hs2 Hfs]; subst.
      assert (Hk : key s = key r).
      { apply String.leb_antisym.
        - assert (Hin : In r (group key (key r) (s :: l2))).
          { rewrite <- Hg, group_cons_same. now left. }
          apply group_In in Hin. destruct Hin as [[->|Hin] _].
          + unfold String.leb. now rewrite compare_refl.
          + rewrite Forall_forall in Hfs. now apply Hfs.
        - assert (Hin : In s (group key (key s) (r :: l1))).
          { rewrite Hg, group_cons_same. now left. }
          apply group_In in Hin. destruct Hin as [[->|Hin] _].
          + unfold String.leb. now rewrite compare_refl.
          + rewrite Forall_forall in Hr. now apply Hr. }
      assert (Hrs : r = s /\
                    group key (key r) l1 = group key (key r) l2).
      { specialize (Hg (key r)). rewrite group_cons_same in Hg.
        rewrite <- Hk, group_cons_same, Hk in Hg.
        injection Hg as -> Hg. auto. }
      destruct Hrs as [<- Htl]. f_equal. apply IH; auto.
      intros u. destruct (String.eqb_spec (key r) u) as [<-|Hne]; auto.
      specialize (Hg u). unfold group in Hg. simpl in Hg.
      apply String.eqb_neq in Hne. now rewrite Hne in Hg.
Qed.

End KeysSorted.

Lemma ranked_keys_sorted (df : list RawPost) :
  keys_sorted r_username (ranked df).
Proof.
  apply keys_sorted_sort_values;
    [apply post_number_order_total | apply post_number_order_trans].
Qed.

Lemma labeled_with_keys_sorted (m : Q) (df : list RawPost) :
  keys_sorted l_username (labeled_with m df).
Proof.
  rewrite labeled_with_estimated. apply StronglySorted_map.
  apply (StronglySorted_combine _ (ranked_keys_sorted df)).
Qed.

Lemma compute_engagement_with_keys_sorted (m : Q) (df : list RawPost) :
  keys_sorted l_username (compute_engagement_with m df).
Proof. apply keys_sorted_groupby_head, labeled_with_keys_sorted. Qed.

Lemma normalize_strip (r : Labeled) : normalize (strip r) = r_post (l_row r).
Proof. destruct r as [[[u i d l v c t] n] a b]. reflexivity. Qed.

Lemma firstn_seq (k a n : nat) : firstn k (seq a n) = seq a (Nat.min k n).
Proof.
  revert a n. induction k as [|k IH]; intros a [|n]; simpl; auto.
  now rewrite IH.
Qed.

(** On the rows that the cap left of an account, a second run finds the
    same posts in the same order and no window of 50 rows. *)
Lemma account_rerun (m : Q) (g : list RawPost) :
  firstn 50 (account_labeled m
               (map strip (firstn 50 (account_labeled m g)))) =
  map unlabel (firstn 50 (account_labeled m g)).
Proof.
  set (S' := firstn 50 (account_sorted g)).
  assert (Hlen : (List.length S' <= 50)%nat)
    by (unfold S'; rewrite length_firstn; lia).
  assert (HS : account_sorted (map strip (firstn 50 (account_labeled m g)))
               = S').
  { unfold account_sorted at 1. rewrite map_map.
    rewrite (map_ext _ _ normalize_strip).
    rewrite <- firstn_map, account_labeled_posts. fold S'.
    apply sort_values_sorted_id, StronglySorted_firstn,
      account_sorted_sorted. }
  rewrite (account_labeled_closed m (map strip _)), HS.
  rewrite firstn_all2
    by (rewrite length_map, length_combine, length_seq; lia).
  rewrite (account_labeled_closed m g), firstn_map, map_map.
  rewrite combine_firstn, firstn_seq. fold S'.
  replace (Nat.min 50 (List.length (account_sorted g)))
    with (List.length S') by (unfold S'; now rewrite length_firstn).
  apply map_ext. intros [p i]. simpl.
  rewrite window_mean_short by (rewrite length_map; lia). reflexivity.
Qed.

(** C5, as the code has it.  A second run on the result of a first run,
    its derived columns dropped, returns the rows of the first result in
    the same order and with the same [post_number], every rolling
    estimate undefined and every label 0; it returns the first result
    itself when no account of the input has more than 50 posts. *)
Theorem second_run_keeps_ranks_and_drops_estimates :
  (forall df : list RawPost,
      compute_engagement (map strip (compute_engagement df)) =
      map unlabel (compute_engagement df)) /\
  (forall df : list RawPost,
      (forall u, (List.length (group raw_username u df) <= 50)%nat) ->
      compute_engagement (map strip (compute_engagement df)) =
      compute_engagement df).
Proof.
  assert (Hrun : forall df : list RawPost,
             compute_engagement (map strip (compute_engagement df)) =
             map unlabel (compute_engagement df)).
  { intros df. apply keys_sorted_eq with (key := l_username).
    - apply compute_engagement_with_keys_sorted.
    - apply StronglySorted_map.
      apply (compute_engagement_with_keys_sorted viral_multiplier df).
    - intros u. unfold compute_engagement.
      rewrite group_compute_engagement_with.
      rewrite (group_map l_username raw_username strip) by reflexivity.
      rewrite (group_map l_username l_username unlabel) by reflexivity.
      rewrite group_compute_engagement_with.
      apply account_rerun. }
  split; [exact Hrun|].
  intros df Hk. rewrite Hrun.
  rewrite <- (map_id (compute_engagement df)) at 2.
  apply map_ext_in. intros r Hr.
  apply compute_engagement_with_row in Hr. destruct Hr as [Hr _].
  destruct (@short_account_rows viral_multiplier df r (Hk (l_username r)) Hr)
    as [Ha Hv].
  destruct r as [row a v]. simpl in *. now subst.
Qed.

(** The second run on scenario A loses the estimate of the newest post. *)
Lemma alice_second_run_differs :
  compute_engagement (map strip (compute_engagement alice)) <>
  compute_engagement alice.
Proof.
  intros H.
  apply (f_equal (fun l => map avg_last_50 (firstn 1 l))) in H.
  vm_compute in H. discriminate.
Qed.

Lemma second_run_keeps_ranks_and_drops_estimates_witness :
  compute_engagement (map strip (compute_engagement ties)) =
  compute_engagement ties.
Proof.
  apply (proj2 second_run_keeps_ranks_and_drops_estimates ties).
  intros u. unfold group.
  apply Nat.le_trans with (List.length ties).
  - apply List.filter_length_le.
  - vm_compute. lia.
Defined.

(** ** The percentile calibrator *)

Lemma descending_total (a b : Z) :
  descending a b = true \/ descending b a = true.
Proof.
  unfold descending. destruct (Z.leb_spec b a); auto.
  right. apply Z.leb_le. lia.
Qed.

Lemma descending_trans (a b c : Z) :
  descending a b = true -> descending b c = true -> descending a c = true.
Proof. unfold descending. rewrite !Z.leb_le. lia. Qed.

Lemma top_count_bounds (p : Q) (n : nat) :
  (0 < p)%Q -> (p <= 1)%Q -> (0 < n)%nat ->
  (1 <= top_count p n <= n)%nat.
Proof.
  intros Hp0 Hp1 Hn. unfold top_count.
  set (q := (p * inject_Z (Z.of_nat n))%Q).
  assert (Hn' : (0 < inject_Z (Z.of_nat n))%Q)
    by (rewrite <- (Zlt_Qlt 0); lia).
  assert (Hq0 : (0 < q)%Q).
  { unfold q. apply Qmult_lt_0_compat; auto. }
  assert (Hq1 : (q <= inject_Z (Z.of_nat n))%Q).
  { unfold q. rewrite <- (Qmult_1_l (inject_Z (Z.of_nat n))) at 2.
    apply Qmult_le_compat_r; auto. now apply Qlt_le_weak. }
  assert (H1 : 0 < Qceiling q).
  { rewrite (Zlt_Qlt 0). eapply Qlt_le_trans; [exact Hq0|].
    apply Qle_ceiling. }
  assert (H2 : Qceiling q <= Z.of_nat n).
  { rewrite <- (Qceiling_Z (Z.of_nat n)). now apply Qceiling_resp_le. }
  lia.
Qed.

Lemma Permutation_filter (A : Type) (p : A -> bool) (l l' : list A) :
  Permutation l l' -> Permutation (filter p l) (filter p l').
Proof.
  induction 1 as [|x l l' H IH|x y l|l l' l'' H1 IH1 H2 IH2]; simpl; auto.
  - destruct (p x); auto.
  - destruct (p x), (p y); auto. apply perm_swap.
  - now rewrite IH1.
Qed.

Lemma StronglySorted_middle (A : Type) (R : A -> A -> Prop) (l1 l2 : list A)
    (x : A) :
  StronglySorted R (l1 ++ x :: l2) ->
  Forall (fun a => R a x) l1 /\ Forall (R x) l2.
Proof.
  induction l1 as [|a l1 IH]; simpl; intros H; inversion H; subst.
  - split; auto.
  - destruct (IH H2) as [H5 H6]. split; auto. constructor; auto.
    rewrite Forall_forall in H3. apply H3, in_elt.
Qed.

Lemma count_ge_gt_occ (t : Z) (l : list Z) :
  count_ge t l = (count_gt t l + count_occ Z.eq_dec l t)%nat.
Proof.
  unfold count_ge, count_gt. induction l as [|x l IH]; simpl; auto.
  destruct (Z.leb_spec t x), (Z.ltb_spec t x), (Z.eq_dec x t);
    simpl; lia.
Qed.

Lemma top_engagement_threshold_spec (p : Q) (l : list Z) :
  (0 < p)%Q -> (p <= 1)%Q -> l <> [] ->
  exists t, top_engagement_threshold p l = Some t /\ is_top_threshold p l t.
Proof.
  intros Hp0 Hp1 Hl.
  assert (Hn : (0 < List.length l)%nat)
    by (destruct l; [contradiction | simpl; lia]).
  destruct (top_count_bounds Hp0 Hp1 Hn) as [Hk1 Hk2].
  unfold top_engagement_threshold, is_top_threshold.
  set (k := top_count p (List.length l)) in *.
  set (s := sort_values descending l).
  destruct k as [|k'] eqn:Ek; [lia|].
  replace (S k' - 1)%nat with k' by lia.
  destruct (nth_error s k') as [t|] eqn:Et.
  2:{ apply nth_error_None in Et. unfold s in Et.
      rewrite sort_values_length in Et. lia. }
  exists t. split; auto.
  destruct (nth_error_split _ _ Et) as [s1 [s2 [Hs Hs1]]].
  assert (Hsorted : StronglySorted (fun a b => descending a b = true) s)
    by (apply sort_values_sorted;
        [apply descending_total | apply descending_trans]).
  rewrite Hs in Hsorted. apply StronglySorted_middle in Hsorted.
  destruct Hsorted as [Hhi Hlo].
  assert (Hperm : Permutation s l) by apply sort_values_perm.
  assert (Hge : count_ge t l = count_ge t s).
  { unfold count_ge. apply Permutation_length, Permutation_filter.
    now symmetry. }
  assert (Hgt : count_gt t l = count_gt t s).
  { unfold count_gt. apply Permutation_length, Permutation_filter.
    now symmetry. }
  assert (Hge' : (S k' <= count_ge t s)%nat).
  { rewrite Hs. unfold count_ge. rewrite filter_app, length_app.
    rewrite (filter_all (fun x => t <=? x) s1).
    - simpl. rewrite Z.leb_refl. simpl. lia.
    - rewrite Forall_forall in Hhi. exact Hhi. }
  assert (Hgt' : (count_gt t s < S k')%nat).
  { rewrite Hs. unfold count_gt. rewrite filter_app, length_app.
    simpl. rewrite Z.ltb_irrefl.
    rewrite (filter_none (fun x => t <? x) s2).
    - simpl. pose proof (List.filter_length_le (fun x => t <? x) s1). lia.
    - intros x Hx. rewrite Forall_forall in Hlo. specialize (Hlo x Hx).
      unfold descending in Hlo. apply Z.leb_le in Hlo.
      apply Z.ltb_ge. exact Hlo. }
  repeat split; try lia.
  intros Hnd. rewrite count_ge_gt_occ.
  assert (Hin : In t l).
  { apply (Permutation_in t Hperm). rewrite Hs. apply in_elt. }
  rewrite (proj1 (NoDup_count_occ' Z.eq_dec l) Hnd t Hin).
  rewrite count_ge_gt_occ in Hge.
  rewrite (proj1 (NoDup_count_occ' Z.eq_dec l) Hnd t Hin) in Hge. lia.
Qed.

(** C8, on the calibrator as the spec words it.  For two non-empty
    collections and a top fraction [0 < p <= 1] the calibrator returns one
    threshold per collection, each the [ceil(p * n)]-th largest value of
    its own collection, whatever the other collection is: at least
    [ceil(p * n)] items of the collection are at or above it and fewer
    than [ceil(p * n)] are strictly above it, and exactly [ceil(p * n)]
    are at or above it when the values are pairwise distinct.  For
    [10, 20, 30, 40, 50] and [p = 0.2] the threshold is 50. *)
Theorem top_engagement_thresholds
    (ad_data cat_data : list Z) (top_percent : Q) :
  (0 < top_percent)%Q -> (top_percent <= 1)%Q ->
  ad_data <> [] -> cat_data <> [] ->
  (exists ta tc : Z,
      get_top_engagement_from_both ad_data cat_data top_percent
      = (Some ta, Some tc) /\
      is_top_threshold top_percent ad_data ta /\
      is_top_threshold top_percent cat_data tc) /\
  (forall other : list Z,
      fst (get_top_engagement_from_both ad_data other top_percent) =
      fst (get_top_engagement_from_both ad_data cat_data top_percent) /\
      snd (get_top_engagement_from_both other cat_data top_percent) =
      snd (get_top_engagement_from_both ad_data cat_data top_percent)) /\
  fst (get_top_engagement_from_both [10; 20; 30; 40; 50] cat_data (2 # 10))
  = Some 50.
Proof.
  intros Hp0 Hp1 Had Hcat. split; [|split].
  - destruct (top_engagement_threshold_spec Hp0 Hp1 Had) as [ta [Ha Hta]].
    destruct (top_engagement_threshold_spec Hp0 Hp1 Hcat) as [tc [Hc Htc]].
    exists ta, tc. unfold get_top_engagement_from_both.
    rewrite Ha, Hc. auto.
  - intros other. split; reflexivity.
  - reflexivity.
Qed.

(** With two items of 50 likes the top 20% threshold of five items has
    two items at or above it, not one. *)
Lemma tied_top_items_exceed_top_count :
  get_top_engagement_from_both [50; 50; 30; 20; 10] [10; 20; 30; 40; 50]
                               (2 # 10)
  = (Some 50, Some 50) /\
  top_count (2 # 10) (List.length [50; 50; 30; 20; 10]) = 1%nat /\
  count_ge 50 [50; 50; 30; 20; 10] = 2%nat /\
  count_ge 50 [50; 50; 30; 20; 10]
  <> top_count (2 # 10) (List.length [50; 50; 30; 20; 10]).
Proof.
  repeat split; vm_compute; discriminate.
Qed.

Lemma top_engagement_thresholds_witness :
  get_top_engagement_from_both [10; 20; 30; 40; 50] [7; 7; 3] (2 # 10)
  = (Some 50, Some 7) /\
  exists ta tc : Z,
    get_top_engagement_from_both [10; 20; 30; 40; 50] [7; 7; 3] (2 # 10)
    = (Some ta, Some tc) /\
    is_top_threshold (2 # 10) [10; 20; 30; 40; 50] ta /\
    is_top_threshold (2 # 10) [7; 7; 3] tc.
Proof.
  split; [vm_compute; reflexivity|].
  apply (@top_engagement_thresholds [10; 20; 30; 40; 50] [7; 7; 3] (2 # 10)).
  - vm_compute. reflexivity.
  - vm_compute. discriminate.
  - discriminate.
  - discriminate.
Defined.

(** * Post ids *)

Example extract_reel_url :
  extract_post_id_from_url "https://www.instagram.com/reel/C8mtEPSp4b8/"
  = Some "C8mtEPSp4b8"%string.
Proof. reflexivity. Qed.

Example extract_post_url_with_p :
  extract_post_id_from_url "https://www.instagram.com/p/ABC123456/"
  = Some "ABC123456"%string.
Proof. reflexivity. Qed.

Example extract_without_trailing_slash :
  extract_post_id_from_url "https://www.instagram.com/reel/XYZ789"
  = Some "XYZ789"%string.
Proof. reflexivity. Qed.

Example extract_not_a_url :
  extract_post_id_from_url "not_a_url" = Some "not_a_url"%string.
Proof. reflexivity. Qed.

(** ** Splitting and stripping *)

Lemma split_cons (c : ascii) (s : string) :
  exists h t, split c s = h :: t.
Proof.
  induction s as [|a s [h [t IH]]]; simpl.
  - eauto.
  - destruct (Ascii.eqb a c); [eauto|]. rewrite IH. eauto.
Qed.

Lemma split_no_sep (c : ascii) (s : string) :
  Forall (fun p => contains c p = false) (split c s).
Proof.
  induction s as [|a s IH]; simpl.
  - repeat constructor.
  - destruct (Ascii.eqb a c) eqn:E.
    + constructor; auto.
    + destruct (split c s) as [|h t].
      * repeat constructor. simpl. now rewrite E.
      * inversion IH; subst. constructor; auto. simpl. now rewrite E.
Qed.

(** A separator between two strings separates their pieces. *)
Lemma split_app (c : ascii) (a b : string) :
  split c (a ++ String c b)%string = split c a ++ split c b.
Proof.
  induction a as [|x a IH]; simpl.
  - now rewrite Ascii.eqb_refl.
  - destruct (Ascii.eqb x c); [now rewrite IH|].
    rewrite IH. destruct (split_cons c a) as [h [t ->]]. reflexivity.
Qed.

Lemma split_one (c : ascii) (s : string) :
  contains c s = false -> split c s = [s].
Proof.
  induction s as [|a s IH]; simpl; auto.
  destruct (Ascii.eqb a c); simpl; [discriminate|].
  intros H. now rewrite IH.
Qed.

Lemma rstrip_app_sep (c : ascii) (s : string) :
  rstrip c (s ++ String c EmptyString)%string = rstrip c s.
Proof.
  induction s as [|a s IH]; simpl.
  - now rewrite Ascii.eqb_refl.
  - now rewrite IH.
Qed.

Lemma rstrip_only (c : ascii) (s : string) :
  rstrip c s = EmptyString <-> only c s = true.
Proof.
  induction s as [|a s IH]; simpl; [tauto|].
  destruct (rstrip c s) eqn:E.
  - destruct (Ascii.eqb a c); simpl; [tauto|].
    split; discriminate.
  - split; [discriminate|]. intros H. apply andb_true_iff in H.
    destruct H as [_ H]. apply IH in H. discriminate.
Qed.

(** The last character of a string that is not empty. *)
Lemma string_last (s : string) :
  s <> EmptyString ->
  exists t a, s = (t ++ String a EmptyString)%string.
Proof.
  induction s as [|x s IH]; [congruence|]. intros _.
  destruct s as [|y s].
  - exists EmptyString, x. reflexivity.
  - destruct IH as [t [a E]]; [discriminate|].
    exists (String x t), a. simpl. now rewrite E.
Qed.

Lemma contains_app (c : ascii) (a b : string) :
  contains c (a ++ b)%string = contains c a || contains c b.
Proof.
  induction a as [|x a IH]; simpl; auto.
  now rewrite IH, orb_assoc.
Qed.

Lemma rstrip_keeps (c : ascii) (t : string) (a : ascii) :
  Ascii.eqb a c = false ->
  rstrip c (t ++ String a EmptyString)%string
  = (t ++ String a EmptyString)%string.
Proof.
  intros Ha. induction t as [|x t IH]; simpl.
  - now rewrite Ha.
  - rewrite IH. destruct t; reflexivity.
Qed.

(** What [rstrip] leaves is empty or ends with another character. *)
Lemma rstrip_shape (c : ascii) (s : string) :
  rstrip c s = EmptyString \/
  exists t a, Ascii.eqb a c = false /\
              rstrip c s = (t ++ String a EmptyString)%string.
Proof.
  induction s as [|x s IH]; simpl; auto.
  destruct IH as [->|[t [a [Ha ->]]]].
  - destruct (Ascii.eqb x c) eqn:E; auto.
    right. exists EmptyString, x. auto.
  - right. exists (String x t), a. split; auto.
    destruct t; reflexivity.
Qed.

Lemma getitem_neg_last (l : list string) (x : string) :
  getitem_neg (l ++ [x]) 1 = Some x.
Proof.
  unfold getitem_neg.
  assert (E : List.length (l ++ [x]) = S (List.length l))
    by (rewrite length_app; simpl; lia).
  rewrite E. cbn [Nat.leb Nat.sub]. rewrite Nat.sub_0_r.
  rewrite nth_error_app2 by lia. now rewrite Nat.sub_diag.
Qed.

Lemma list_unsnoc (A : Type) (l : list A) :
  l <> [] -> exists l' x, l = l' ++ [x].
Proof.
  intros H. destruct (exists_last H) as [l' [x E]]. eauto.
Qed.

(** The pieces of a string that ends with another character than the
    separator: the last piece is not empty. *)
Lemma split_last_piece (c : ascii) (t : string) (a : ascii) :
  Ascii.eqb a c = false ->
  exists l x, split c (t ++ String a EmptyString)%string = l ++ [x] /\
              x <> EmptyString.
Proof.
  intros Ha. induction t as [|y t [l [x [IH Hx]]]]; simpl.
  - rewrite Ha. exists [], (String a EmptyString). split; [auto|discriminate].
  - rewrite IH. destruct (Ascii.eqb y c).
    + exists (EmptyString :: l), x. auto.
    + destruct l as [|h l]; simpl.
      * exists [], (String y x). split; [auto|discriminate].
      * exists (String y h :: l), x. auto.
Qed.

Lemma list_index_contains (x : string) (l : list string) :
  list_contains x l = true -> exists i, list_index x l = Some i /\
                                        (i < List.length l)%nat.
Proof.
  unfold list_contains. induction l as [|y l IH]; simpl; [discriminate|].
  rewrite (String.eqb_sym x y).
  destruct (String.eqb y x); simpl.
  - exists 0%nat. split; [auto|lia].
  - intros H. destruct (IH H) as [i [-> Hi]]. exists (S i). simpl.
    split; [auto|lia].
Qed.

Lemma getitem_In (l : list string) (i : nat) (x : string) :
  getitem l i = Some x -> In x l.
Proof. apply nth_error_In. Qed.

Lemma getitem_neg_In (l : list string) (k : nat) (x : string) :
  getitem_neg l k = Some x -> In x l.
Proof.
  unfold getitem_neg. destruct (k <=? List.length l)%nat; [|discriminate].
  apply nth_error_In.
Qed.

Lemma string_app_assoc (a b c : string) :
  ((a ++ b) ++ c)%string = (a ++ (b ++ c))%string.
Proof. induction a as [|x a IH]; simpl; congruence. Qed.

Lemma rstrip_path (c : ascii) (base id : string) :
  contains c id = false -> id <> EmptyString ->
  rstrip c (base ++ id)%string = (base ++ id)%string.
Proof.
  intros Hc Hid. destruct (string_last Hid) as [t [a ->]].
  rewrite contains_app in Hc. apply orb_false_iff in Hc.
  destruct Hc as [_ Hc]. simpl in Hc. rewrite orb_false_r in Hc.
  rewrite <- string_app_assoc. now apply rstrip_keeps.
Qed.

Lemma split_path (c : ascii) (base id : string) :
  contains c id = false ->
  split c (base ++ String c id)%string = split c base ++ [id].
Proof. intros Hc. now rewrite split_app, (split_one _ _ Hc). Qed.

Lemma list_contains_app (x : string) (l1 l2 : list string) :
  list_contains x (l1 ++ l2) = list_contains x l1 || list_contains x l2.
Proof. apply existsb_app. Qed.

Lemma list_index_app_r (x : string) (l1 l2 : list string) :
  list_contains x l1 = false ->
  list_index x (l1 ++ x :: l2) = Some (List.length l1).
Proof.
  unfold list_contains. induction l1 as [|y l1 IH]; simpl.
  - now rewrite String.eqb_refl.
  - rewrite (String.eqb_sym x y). intros H. apply orb_false_iff in H.
    destruct H as [-> H]. now rewrite IH.
Qed.

(** ** [extract_post_id_from_url] *)

Lemma extract_post_id_from_url_In (url id : string) :
  extract_post_id_from_url url = Some id ->
  In id (split "/" (rstrip "/" url)).
Proof.
  unfold extract_post_id_from_url.
  set (parts := split "/" (rstrip "/" url)).
  destruct (list_contains "p" parts).
  - destruct (list_index "p" parts) as [i|]; [|discriminate].
    destruct (i + 1 <? List.length parts)%nat;
      [apply getitem_In | apply getitem_neg_In].
  - destruct (getitem_neg parts 1) as [x|] eqn:E; [|discriminate].
    destruct (String.eqb x ""); [apply getitem_neg_In|].
    intros H. injection H as <-. now apply getitem_neg_In in E.
Qed.

(** X1.  A post id that [extract_post_id_from_url] returns never holds a
    slash. *)
Theorem extract_post_id_from_url_no_slash (url id : string) :
  extract_post_id_from_url url = Some id -> contains "/" id = false.
Proof.
  intros H. apply extract_post_id_from_url_In in H.
  pose proof (split_no_sep "/" (rstrip "/" url)) as Hall.
  rewrite Forall_forall in Hall. now apply Hall.
Qed.

Lemma extract_post_id_from_url_no_slash_witness :
  extract_post_id_from_url "https://www.instagram.com/reel/C8mtEPSp4b8/"
  = Some "C8mtEPSp4b8"%string /\
  contains "/" "C8mtEPSp4b8" = false.
Proof.
  split; [reflexivity|].
  apply (@extract_post_id_from_url_no_slash
           "https://www.instagram.com/reel/C8mtEPSp4b8/" "C8mtEPSp4b8").
  reflexivity.
Defined.

(** X2.  [extract_post_id_from_url] returns [None] exactly for the urls
    made of slashes only, the empty url among them; any other string gets
    an id. *)
Theorem extract_post_id_from_url_none (url : string) :
  extract_post_id_from_url url = None <-> only "/" url = true.
Proof.
  rewrite <- rstrip_only. unfold extract_post_id_from_url.
  destruct (rstrip_shape "/" url) as [E|[t [a [Ha E]]]]; rewrite E.
  - split; reflexivity.
  - destruct (@split_last_piece "/"%char t a Ha) as [l [x [Hs Hx]]].
    rewrite Hs.
    split; [|destruct t; discriminate].
    destruct (list_contains "p" (l ++ [x])) eqn:Hp.
    + destruct (list_index_contains _ _ Hp) as [i [-> Hi]].
      destruct (Nat.ltb_spec (i + 1) (List.length (l ++ [x]))) as [Hlt|_].
      * unfold getitem. intros H. apply nth_error_None in H. lia.
      * rewrite getitem_neg_last. discriminate.
    + rewrite getitem_neg_last.
      apply String.eqb_neq in Hx. rewrite Hx. discriminate.
Qed.

(** X3.  Trailing slashes do not matter to [extract_post_id_from_url]. *)
Theorem extract_post_id_from_url_trailing_slash (url : string) :
  extract_post_id_from_url (url ++ "/")%string = extract_post_id_from_url url.
Proof.
  unfold extract_post_id_from_url. now rewrite rstrip_app_sep.
Qed.

(** [rstrip] on a concatenation. *)
Lemma rstrip_app (c : ascii) (a b : string) :
  rstrip c (a ++ b)%string =
  if only c b then rstrip c a else (a ++ rstrip c b)%string.
Proof.
  induction a as [|x a IH]; simpl.
  - destruct (only c b) eqn:E; auto. now apply rstrip_only.
  - rewrite IH. destruct (only c b) eqn:E; auto.
    destruct (a ++ rstrip c b)%string eqn:E'; auto.
    destruct a; [|discriminate]. simpl in E'.
    apply rstrip_only in E'. congruence.
Qed.

Lemma extract_after_p (url id : string) (l1 l2 : list string) :
  split "/" (rstrip "/" url) = l1 ++ "p"%string :: id :: l2 ->
  list_contains "p" l1 = false ->
  extract_post_id_from_url url = Some id.
Proof.
  intros Hs Hl. unfold extract_post_id_from_url. rewrite Hs.
  rewrite list_contains_app. simpl. rewrite orb_true_r.
  rewrite (list_index_app_r "p" l1 (id :: l2) Hl).
  rewrite length_app. simpl.
  destruct (Nat.ltb_spec (List.length l1 + 1)
                         (List.length l1 + S (S (List.length l2))));
    [|lia].
  unfold getitem. rewrite nth_error_app2 by lia.
  replace (List.length l1 + 1 - List.length l1)%nat with 1%nat by lia.
  reflexivity.
Qed.

(** X4.  When no segment of the url is ["p"], the id is the last segment:
    for [base/id] with an [id] that is not empty and holds no slash the
    result is [id]. *)
Theorem extract_post_id_from_url_last_segment (base id : string) :
  contains "/" id = false -> id <> EmptyString -> id <> "p"%string ->
  list_contains "p" (split "/" base) = false ->
  extract_post_id_from_url (base ++ "/" ++ id)%string = Some id.
Proof.
  intros Hc Hid Hp Hb. unfold extract_post_id_from_url.
  change (base ++ "/" ++ id)%string with (base ++ ("/" ++ id))%string.
  rewrite <- string_app_assoc.
  rewrite (@rstrip_path "/"%char (base ++ "/") id Hc Hid), string_app_assoc.
  simpl String.append. rewrite (@split_path "/"%char base id Hc).
  assert (Hpid : list_contains "p" [id] = false).
  { unfold list_contains. cbn [existsb].
    apply String.eqb_neq in Hp. now rewrite (String.eqb_sym "p" id), Hp. }
  rewrite list_contains_app, Hb, Hpid. cbn [orb].
  rewrite getitem_neg_last.
  apply String.eqb_neq in Hid. now rewrite Hid.
Qed.

Lemma extract_post_id_from_url_last_segment_witness :
  extract_post_id_from_url "https://www.instagram.com/reel/XYZ789"
  = Some "XYZ789"%string.
Proof.
  apply (@extract_post_id_from_url_last_segment
           "https://www.instagram.com/reel" "XYZ789");
    (reflexivity || discriminate).
Defined.

(** X5.  The segment that follows the first segment ["p"] is the id,
    whatever comes after it: [base/p/id] and [base/p/id/rest] give [id]
    when [base] has no segment ["p"] and [id] is not empty and holds no
    slash. *)
Theorem extract_post_id_from_url_after_p (base id : string) :
  contains "/" id = false -> id <> EmptyString ->
  list_contains "p" (split "/" base) = false ->
  extract_post_id_from_url (base ++ "/p/" ++ id)%string = Some id /\
  forall rest : string,
    extract_post_id_from_url (base ++ "/p/" ++ id ++ "/" ++ rest)%string
    = Some id.
Proof.
  intros Hc Hid Hb.
  assert (HU : rstrip "/" (base ++ "/p/" ++ id)%string
               = (base ++ "/p/" ++ id)%string).
  { change (base ++ "/p/" ++ id)%string
      with (base ++ ("/p/" ++ id))%string.
    rewrite <- string_app_assoc.
    rewrite (@rstrip_path "/"%char (base ++ "/p/") id Hc Hid).
    now rewrite string_app_assoc. }
  assert (HS : forall tail : list string,
             split "/" (base ++ "/p/" ++ id)%string ++ tail
             = split "/" base ++ "p"%string :: id :: tail).
  { intros tail. simpl String.append.
    rewrite split_app.
    change (String "p" (String "/" id))
      with ("p" ++ String "/" id)%string.
    rewrite (@split_path "/"%char "p" id Hc). simpl.
    now rewrite <- app_assoc. }
  split.
  - apply extract_after_p with (l1 := split "/" base) (l2 := []); auto.
    rewrite HU, <- HS. now rewrite app_nil_r.
  - intros rest.
    replace (base ++ "/p/" ++ id ++ "/" ++ rest)%string
      with ((base ++ "/p/" ++ id) ++ String "/" rest)%string
      by (rewrite !string_app_assoc; reflexivity).
    destruct (only "/" (String "/" rest)) eqn:Eo.
    + apply extract_after_p with (l1 := split "/" base) (l2 := []); auto.
      rewrite rstrip_app, Eo, HU, <- HS. now rewrite app_nil_r.
    + apply extract_after_p
        with (l1 := split "/" base) (l2 := split "/" (rstrip "/" rest));
        auto.
      rewrite rstrip_app, Eo. simpl rstrip.
      simpl in Eo.
      destruct (rstrip "/" rest) eqn:Er.
      * apply rstrip_only in Er. congruence.
      * rewrite split_app. apply HS.
Qed.

Lemma extract_post_id_from_url_after_p_witness :
  extract_post_id_from_url "https://www.instagram.com/p/ABC123456"
  = Some "ABC123456"%string /\
  extract_post_id_from_url "https://www.instagram.com/p/ABC123456/?hl=en"
  = Some "ABC123456"%string.
Proof.
  destruct (@extract_post_id_from_url_after_p
              "https://www.instagram.com" "ABC123456") as [H1 H2];
    try (reflexivity || discriminate).
  split; [exact H1 | exact (H2 "?hl=en"%string)].
Defined.

(** ** The sibling extractors *)

(** The pieces of a stripped url: a single empty piece, or pieces of
    which the last is not empty. *)
Lemma stripped_pieces (url : string) :
  split "/" (rstrip "/" url) = [EmptyString] \/
  exists l x, split "/" (rstrip "/" url) = l ++ [x] /\ x <> EmptyString.
Proof.
  destruct (rstrip_shape "/" url) as [E|[t [a [Ha E]]]]; rewrite E.
  - now left.
  - right. now apply split_last_piece.
Qed.

Lemma extract_post_id_value (post_url : string) :
  extract_post_id post_url =
  Some match extract_post_id_from_url post_url with
       | Some post_id => post_id
       | None => EmptyString
       end.
Proof.
  unfold extract_post_id, extract_post_id_from_url.
  destruct (stripped_pieces post_url) as [E|[l [x [E Hx]]]]; rewrite E.
  - reflexivity.
  - rewrite !getitem_neg_last.
    destruct (list_contains "p" (l ++ [x])) eqn:Hp.
    + destruct (list_index_contains _ _ Hp) as [i [-> Hi]].
      destruct (Nat.ltb_spec (i + 1) (List.length (l ++ [x]))) as [Hlt|Hge].
      * destruct (getitem (l ++ [x]) (i + 1)) eqn:G; auto.
        apply nth_error_None in G. lia.
      * destruct (getitem (l ++ [x]) (i + 1)) eqn:G; auto.
        assert (Hsome : nth_error (l ++ [x]) (i + 1) <> None)
          by (unfold getitem in G; congruence).
        apply nth_error_Some in Hsome. lia.
    + apply String.eqb_neq in Hx. now rewrite Hx.
Qed.

(** X6.  [extract_post_id] of the Gemini services never raises and agrees
    with [extract_post_id_from_url], except that it returns the empty
    string where the latter returns [None]. *)
Theorem extract_post_id_agrees (post_url : string) :
  extract_post_id post_url =
  Some match extract_post_id_from_url post_url with
       | Some post_id => post_id
       | None => EmptyString
       end.
Proof. apply extract_post_id_value. Qed.

(** X7.  The extractor of the minimal pipeline returns nothing else than
    [extract_post_id_from_url]: an id it returns is the id the latter
    returns.  They differ on the urls whose first segment ["p"] is the
    last segment, as [base/p]: there the minimal one returns [None], and
    [extract_post_id_from_url] and [extract_post_id] return ["p"]. *)
Theorem extract_post_id_minimal_agrees :
  (forall url id : string,
      extract_post_id_minimal url = Some id ->
      extract_post_id_from_url url = Some id) /\
  (forall base : string,
      list_contains "p" (split "/" base) = false ->
      extract_post_id_minimal (base ++ "/p")%string = None /\
      extract_post_id_from_url (base ++ "/p")%string = Some "p"%string /\
      extract_post_id (base ++ "/p")%string = Some "p"%string).
Proof.
  split.
  - intros url id. unfold extract_post_id_minimal, extract_post_id_from_url.
    set (parts := split "/" (rstrip "/" url)).
    destruct (list_contains "p" parts); auto.
    destruct (list_index "p" parts) as [i|]; auto.
    destruct (Nat.ltb_spec (i + 1) (List.length parts)) as [Hlt|Hge]; auto.
    unfold getitem. intros Hget.
    assert (Hsome : nth_error parts (i + 1) <> None) by congruence.
    apply nth_error_Some in Hsome. lia.
  - intros base Hb.
    assert (Hparts : split "/" (rstrip "/" (base ++ "/p")%string)
                     = split "/" base ++ ["p"%string]).
    { change (base ++ "/p")%string with (base ++ ("/" ++ "p"))%string.
      rewrite <- string_app_assoc.
      rewrite (@rstrip_path "/"%char (base ++ "/") "p")
        by (reflexivity || discriminate).
      rewrite string_app_assoc. simpl String.append.
      now apply split_path. }
    assert (Hmain : extract_post_id_from_url (base ++ "/p")%string
                    = Some "p"%string).
    { unfold extract_post_id_from_url. rewrite Hparts.
      rewrite list_contains_app. simpl. rewrite orb_true_r.
      rewrite (list_index_app_r "p" (split "/" base) [] Hb).
      rewrite length_app. simpl.
      destruct (Nat.ltb_spec (List.length (split "/" base) + 1)
                             (List.length (split "/" base) + 1)); [lia|].
      apply getitem_neg_last. }
    split; [|split; [exact Hmain|]].
    + unfold extract_post_id_minimal. rewrite Hparts.
      rewrite list_contains_app. simpl. rewrite orb_true_r.
      rewrite (list_index_app_r "p" (split "/" base) [] Hb).
      unfold getitem. apply nth_error_None.
      rewrite length_app. simpl. lia.
    + rewrite extract_post_id_value. now rewrite Hmain.
Qed.

Lemma extract_post_id_minimal_agrees_witness :
  extract_post_id_minimal "https://www.instagram.com/p" = None /\
  extract_post_id_from_url "https://www.instagram.com/p" = Some "p"%string /\
  extract_post_id_from_url "https://www.instagram.com/p/ABC123456/"
  = Some "ABC123456"%string.
Proof.
  destruct extract_post_id_minimal_agrees as [H1 H2].
  destruct (H2 "https://www.instagram.com"%string eq_refl) as [Ha [Hb _]].
  split; [exact Ha | split; [exact Hb|]].
  apply H1. reflexivity.
Defined.

(** * More on [compute_engagement] *)

Lemma groupby_apply_length (A B C : Type) (key : A -> string) (col : A -> B)
    (func : list B -> list C) (dflt : C) (l : list A) :
  List.length (groupby_apply key col func dflt l) = List.length l.
Proof.
  unfold groupby_apply.
  rewrite length_map, length_combine, cumcount_length. apply Nat.min_id.
Qed.

Lemma ranked_posts_perm (df : list RawPost) :
  Permutation (map r_post (ranked df)) (map normalize df).
Proof.
  unfold ranked. rewrite groupby_filter_nonempty.
  rewrite (Permutation_map r_post (sort_values_perm _ _)).
  unfold assign_post_number. rewrite map_map. simpl.
  rewrite map_fst_combine by now rewrite cumcount_length.
  apply sort_values_perm.
Qed.

Lemma labeled_with_rows (m : Q) (df : list RawPost) :
  map l_row (labeled_with m df) = ranked df.
Proof.
  rewrite labeled_with_estimated, map_map. simpl.
  apply map_fst_combine. now rewrite groupby_apply_length.
Qed.

(** On a table whose rows all have a username, steps 1 to 8 keep every
    row exactly once. *)
Lemma labeled_rows_perm (df : list RawPost) :
  Permutation (map (fun r => r_post (l_row r)) (labeled df))
              (map normalize df) /\
  List.length (labeled df) = List.length df /\
  (List.length (compute_engagement df) <= List.length df)%nat.
Proof.
  assert (Hperm : Permutation (map (fun r => r_post (l_row r)) (labeled df))
                              (map normalize df)).
  { rewrite <- (map_map l_row r_post). unfold labeled.
    rewrite labeled_with_rows. apply ranked_posts_perm. }
  assert (Hlen : List.length (labeled df) = List.length df).
  { apply Permutation_length in Hperm. now rewrite !length_map in Hperm. }
  repeat split; auto.
  rewrite <- Hlen. unfold compute_engagement, compute_engagement_with,
    groupby_head, labeled.
  rewrite length_map.
  eapply Nat.le_trans; [apply List.filter_length_le|].
  rewrite length_combine, cumcount_length. lia.
Qed.

(** X9.  The cap keeps, of every account, the rows with [post_number] at
    most 50 and nothing else: an account of [k] posts has the rows
    numbered 1 .. min(50, k) in the result, and every row of the account
    that the cap drops is no more recent than every row it keeps. *)
Theorem cap_keeps_the_50_latest (df : list RawPost) :
  (forall r : Labeled,
      In r (compute_engagement df) <->
      In r (labeled df) /\ (l_post_number r <= 50)%nat) /\
  (forall u : string,
      map l_post_number (group l_username u (compute_engagement df)) =
      seq 1 (Nat.min 50 (List.length (group raw_username u df)))) /\
  (forall a b : Labeled,
      In a (compute_engagement df) -> In b (labeled df) ->
      ~ In b (compute_engagement df) -> l_username a = l_username b ->
      date_desc_le (l_date a) (l_date b) = true).
Proof.
  split; [|split].
  - intros r. apply compute_engagement_with_row.
  - intros u. unfold compute_engagement.
    rewrite group_compute_engagement_with, <- firstn_map.
    rewrite account_labeled_post_numbers. apply firstn_seq.
  - intros a b Ha Hb Hnb Hu.
    apply compute_engagement_with_row in Ha. destruct Ha as [Ha Ha50].
    assert (Hb50 : (50 < l_post_number b)%nat).
    { destruct (Nat.lt_ge_cases 50 (l_post_number b)); auto.
      exfalso. apply Hnb. apply compute_engagement_with_row. auto. }
    destruct (labeled_with_row _ _ _ Ha) as [i [p [Hp Hra]]].
    destruct (labeled_with_row _ _ _ Hb) as [j [q [Hq Hrb]]].
    rewrite <- Hu in Hq.
    rewrite Hra in Ha50. rewrite Hrb in Hb50.
    unfold l_post_number in Ha50, Hb50. simpl in Ha50, Hb50.
    assert (Hij : (i < j)%nat) by lia.
    rewrite Hra, Hrb. unfold l_date. simpl.
    apply (StronglySorted_nth_error
             (account_sorted_sorted
                (group raw_username (l_username a) df)) Hij Hp Hq).
Qed.

Lemma cap_keeps_the_50_latest_witness :
  exists a b : Labeled,
    In a (compute_engagement carol) /\ In b (labeled carol) /\
    l_post_number a = 50%nat /\ l_post_number b = 51%nat /\
    date_desc_le (l_date a) (l_date b) = true.
Proof.
  assert (E : { ab : Labeled * Labeled |
                nth_error (compute_engagement carol) 49 = Some (fst ab) /\
                nth_error (labeled carol) 50 = Some (snd ab) /\
                l_post_number (fst ab) = 50%nat /\
                l_post_number (snd ab) = 51%nat /\
                l_username (fst ab) = l_username (snd ab) }).
  { vm_compute. eexists (_, _). repeat split. }
  destruct E as [[a b] [Ha [Hb [Hna [Hnb Hu]]]]]. cbn [fst snd] in *.
  assert (Hina : In a (compute_engagement carol))
    by (eapply nth_error_In; exact Ha).
  assert (Hinb : In b (labeled carol))
    by (eapply nth_error_In; exact Hb).
  exists a, b.
  split; [exact Hina|]. split; [exact Hinb|].
  split; [exact Hna|]. split; [exact Hnb|].
  destruct (cap_keeps_the_50_latest carol) as [H1 [_ H3]].
  apply H3; [exact Hina | exact Hinb | | exact Hu].
  intros Hb'. apply (proj1 (H1 b)) in Hb'. destruct Hb' as [_ Hb'].
  rewrite Hnb in Hb'. lia.
Defined.

(** X10.  The result is sorted on [username], ascending, and within an
    account on [post_number], ascending (latest post first). *)
Theorem result_sorted_by_username_post_number (df : list RawPost) :
  StronglySorted (fun a b => by_username_post_number a b = true)
                 (map l_row (compute_engagement df)).
Proof.
  assert (Hr : StronglySorted (fun a b => by_username_post_number a b = true)
                              (ranked df)).
  { apply sort_values_sorted.
    - apply by_key_then_total, post_number_order_total.
    - intros a b c. apply by_key_then_trans, post_number_order_trans. }
  apply StronglySorted_map.
  unfold compute_engagement, compute_engagement_with, groupby_head.
  apply StronglySorted_map, StronglySorted_filter.
  apply (StronglySorted_combine (R := fun a b : Labeled =>
           by_username_post_number (l_row a) (l_row b) = true)).
  rewrite labeled_with_estimated.
  apply StronglySorted_map.
  apply (StronglySorted_combine _ Hr).
Qed.

(** ** Input order *)

(** A sorted list is determined by its elements when the order tells
    them apart. *)
Lemma sorted_perm_unique (A : Type) (R : A -> A -> Prop) (l1 l2 : list A) :
  Permutation l1 l2 ->
  StronglySorted R l1 -> StronglySorted R l2 ->
  (forall a b, In a l1 -> In b l1 -> R a b -> R b a -> a = b) ->
  l1 = l2.
Proof.
  intros Hp H1. revert l2 Hp.
  induction H1 as [|x l1 Hs IH Hx]; intros l2 Hp H2 Hanti.
  - apply Permutation_nil in Hp. now subst.
  - destruct l2 as [|y l2];
      [apply Permutation_sym, Permutation_nil in Hp; discriminate|].
    inversion H2 as [|? ? Hs2 Hy]; subst.
    assert (Hxy : x = y).
    { assert (Hin1 : In x (y :: l2))
        by (apply (Permutation_in x Hp); now left).
      assert (Hin2 : In y (x :: l1))
        by (apply (Permutation_in y (Permutation_sym Hp)); now left).
      destruct Hin1 as [|Hin1]; auto. destruct Hin2 as [|Hin2]; auto.
      rewrite Forall_forall in Hx, Hy.
      apply Hanti; [now left | now right | now apply Hx | now apply Hy]. }
    subst y. f_equal. apply IH; auto.
    + now apply Permutation_cons_inv in Hp.
    + intros a b Ha Hb. apply Hanti; now right.
Qed.

Lemma NoDup_map_eq (A B : Type) (f : A -> B) (l : list A) (x y : A) :
  NoDup (map f l) -> In x l -> In y l -> f x = f y -> x = y.
Proof.
  induction l as [|z l IH]; simpl; intros Hnd Hx Hy E; [contradiction|].
  inversion Hnd as [|? ? Hnotin Hnd']; subst.
  destruct Hx as [->|Hx], Hy as [->|Hy]; auto.
  - exfalso. apply Hnotin. rewrite E. now apply in_map.
  - exfalso. apply Hnotin. rewrite <- E. now apply in_map.
Qed.

Lemma date_desc_le_antisym (a b : option Z) :
  date_desc_le a b = true -> date_desc_le b a = true -> a = b.
Proof.
  destruct a as [x|], b as [y|]; simpl; try discriminate; auto.
  rewrite !Z.leb_le. intros. f_equal. lia.
Qed.

(** X11.  When the timestamps of an account are pairwise distinct (at
    most one of them unparsable), the rows that the pipeline makes for the
    account do not depend on the order of the input rows at all. *)
Theorem distinct_dates_forget_input_order
    (df1 df2 : list RawPost) (u : string) :
  Permutation (group raw_username u df1) (group raw_username u df2) ->
  NoDup (map raw_date (group raw_username u df1)) ->
  group l_username u (labeled df1) = group l_username u (labeled df2) /\
  group l_username u (compute_engagement df1) =
  group l_username u (compute_engagement df2).
Proof.
  intros Hp Hnd.
  set (g1 := group raw_username u df1) in *.
  set (g2 := group raw_username u df2) in *.
  assert (Hs : account_sorted g1 = account_sorted g2).
  { apply sorted_perm_unique
      with (R := fun a b => date_order a b = true).
    - rewrite !account_sorted_perm. now apply Permutation_map.
    - apply account_sorted_sorted.
    - apply account_sorted_sorted.
    - intros a b Ha Hb Hab Hba.
      apply account_sorted_In in Ha, Hb.
      destruct Ha as [x [Hx <-]], Hb as [y [Hy <-]].
      f_equal. apply (NoDup_map_eq raw_date g1); auto.
      apply (date_desc_le_antisym _ _ Hab Hba). }
  assert (Hl : forall m, account_labeled m g1 = account_labeled m g2).
  { intros m. unfold account_labeled, account_ranked. now rewrite Hs. }
  unfold labeled, compute_engagement.
  rewrite !group_labeled_with, !group_compute_engagement_with.
  fold g1 g2. now rewrite Hl.
Qed.

Lemma distinct_dates_forget_input_order_witness :
  group l_username "v" (compute_engagement ties) =
  group l_username "v" (compute_engagement (rev ties)).
Proof.
  apply (@distinct_dates_forget_input_order ties (rev ties) "v").
  - vm_compute. apply perm_swap.
  - vm_compute. repeat constructor; simpl; intuition discriminate.
Defined.

(** ** The size of an estimate *)

Lemma sum_Z_bounds (lo hi : Z) (l : list Z) :
  Forall (fun z => lo <= z <= hi) l ->
  lo * Z.of_nat (List.length l) <= sum_Z l <= hi * Z.of_nat (List.length l).
Proof.
  induction 1 as [|z l Hz _ IH]; [simpl; lia|].
  change (sum_Z (z :: l)) with (z + sum_Z l).
  change (List.length (z :: l)) with (S (List.length l)).
  rewrite Nat2Z.inj_succ. nia.
Qed.

Lemma mean_bounds (lo hi : Z) (l : list Z) :
  l <> [] -> Forall (fun z => lo <= z <= hi) l ->
  (inject_Z lo <= mean l)%Q /\ (mean l <= inject_Z hi)%Q.
Proof.
  intros Hl H. apply sum_Z_bounds in H. unfold mean.
  rewrite Qred_correct.
  destruct (Z.of_nat (List.length l)) as [|n|n] eqn:En.
  - destruct l; [contradiction | discriminate].
  - unfold Qle, Qdiv, Qmult, Qinv, inject_Z. simpl. split; nia.
  - pose proof (Nat2Z.is_nonneg (List.length l)). lia.
Qed.

Lemma window_mean_bounds (lo hi : Z) (l : list Z) (i : nat) (a : Q) :
  Forall (fun z => lo <= z <= hi) l ->
  window_mean 50 l i = Some a ->
  (inject_Z lo <= a)%Q /\ (a <= inject_Z hi)%Q.
Proof.
  intros H. unfold window_mean.
  destruct (Nat.ltb_spec (i + 50) (List.length l)) as [Hlt|];
    [|discriminate].
  set (W := firstn 50 (skipn (S i) l)).
  assert (Hlen : List.length W = 50%nat)
    by (unfold W; rewrite length_firstn, length_skipn; lia).
  intros E. injection E as <-. apply mean_bounds.
  - intros E. rewrite E in Hlen. discriminate.
  - rewrite Forall_forall in *. intros z Hz. apply H.
    apply in_skipn with (n := S i), in_firstn with (n := 50%nat).
    exact Hz.
Qed.

(** X12.  A rolling estimate lies between the smallest and the largest
    likes count of the posts of its account: with all likes of the account
    in [lo, hi], every estimate of the account is in [lo, hi].  The likes
    are taken in the range where a sum of 50 of them is exact in double
    precision, 50 * |likes| <= 2^53, so that the rounded quotient of the
    code stays between the two integers as the exact one does. *)
Theorem estimate_within_account_likes
    (df : list RawPost) (u : string) (lo hi : Z) (r : Labeled) (a : Q) :
  - 2 ^ 53 <= 50 * lo -> 50 * hi <= 2 ^ 53 ->
  (forall x : RawPost,
      In x (group raw_username u df) ->
      lo <= likes (normalize x) <= hi) ->
  In r (labeled df) \/ In r (compute_engagement df) ->
  l_username r = u ->
  avg_last_50 r = Some a ->
  (inject_Z lo <= a)%Q /\ (a <= inject_Z hi)%Q.
Proof.
  intros _ _ Hb Hin Hu Ha.
  assert (Hin' : In r (labeled_with viral_multiplier df))
    by (apply in_result_in_labeled; exact Hin).
  destruct (labeled_with_row _ _ _ Hin') as [i [p [_ Hr]]].
  rewrite Hu in Hr. rewrite Hr in Ha. simpl in Ha.
  apply window_mean_bounds with (lo := lo) (hi := hi) in Ha; auto.
  apply Forall_forall. intros z Hz. apply in_map_iff in Hz.
  destruct Hz as [q [<- Hq]]. apply account_sorted_In in Hq.
  destruct Hq as [x [Hx <-]]. now apply Hb.
Qed.

Lemma estimate_within_account_likes_witness :
  exists r : Labeled,
    In r (compute_engagement alice) /\
    avg_last_50 r = Some (53 # 2) /\
    (inject_Z 1 <= 53 # 2)%Q /\ (53 # 2 <= inject_Z 51)%Q.
Proof.
  assert (E : { r | nth_error (compute_engagement alice) 0 = Some r /\
                    l_username r = "alice"%string /\
                    avg_last_50 r = Some (53 # 2) }).
  { vm_compute. eexists. split; [reflexivity|]. split; reflexivity. }
  destruct E as [r [E [Hu Ha]]].
  assert (Hin : In r (compute_engagement alice))
    by (eapply nth_error_In; exact E).
  exists r. split; [exact Hin|]. split; [exact Ha|].
  apply (@estimate_within_account_likes alice "alice" 1 51 r (53 # 2));
    [lia | lia | | right; exact Hin | exact Hu | exact Ha].
  intros x Hx. apply group_In in Hx. destruct Hx as [Hx _].
  unfold alice in Hx. apply in_map_iff in Hx.
  destruct Hx as [n [<- Hn]]. apply in_seq in Hn.
  cbn [normalize raw likes raw_likes _ensure_numeric]. lia.
Defined.

(** ** Accounts with one likes count *)

Lemma sum_Z_repeat (c : Z) (n : nat) : sum_Z (repeat c n) = Z.of_nat n * c.
Proof.
  induction n as [|n IH]; [reflexivity|].
  change (sum_Z (repeat c (S n))) with (c + sum_Z (repeat c n)).
  rewrite IH, Nat2Z.inj_succ. lia.
Qed.

Lemma mean_repeat_50 (c : Z) : (mean (repeat c 50) == inject_Z c)%Q.
Proof.
  unfold mean. rewrite Qred_correct, sum_Z_repeat, repeat_length.
  change (Z.of_nat 50) with 50.
  unfold Qeq, Qdiv, Qmult, Qinv, inject_Z. cbn [Qnum Qden].
  change (Z.pos (1 * 50)) with 50. lia.
Qed.

Lemma window_mean_repeat (c : Z) (k i : nat) :
  window_mean 50 (repeat c k) i =
  if (i + 50 <? k)%nat then Some (mean (repeat c 50)) else None.
Proof.
  unfold window_mean. rewrite repeat_length.
  destruct (Nat.ltb_spec (i + 50) k) as [Hlt|]; auto.
  f_equal. f_equal.
  set (W := firstn 50 (skipn (S i) (repeat c k))).
  assert (Hlen : List.length W = 50%nat).
  { unfold W. rewrite length_firstn, length_skipn, repeat_length. lia. }
  rewrite <- Hlen. apply Forall_eq_repeat, Forall_forall.
  intros z Hz. unfold W in Hz.
  apply in_firstn, in_skipn in Hz. symmetry.
  apply (repeat_spec _ _ _ Hz).
Qed.

(** X13.  In an account whose posts all have the same likes count [c], no
    post is labeled viral when [c >= 0]; when [c < 0] (as for a hidden
    counter read as -1) every post that has an estimate, that is every
    post followed by 50 older ones, is labeled viral. *)
Theorem constant_account_labels
    (df : list RawPost) (u : string) (c : Z) (r : Labeled) :
  (forall x : RawPost,
      In x (group raw_username u df) -> likes (normalize x) = c) ->
  In r (labeled df) \/ In r (compute_engagement df) ->
  l_username r = u ->
  viral r =
    if (c <? 0) &&
       (l_post_number r + 50 <=? List.length (group raw_username u df))%nat
    then 1 else 0.
Proof.
  intros Hc Hin Hu.
  assert (Hin' : In r (labeled_with viral_multiplier df))
    by (apply in_result_in_labeled; exact Hin).
  destruct (labeled_with_row _ _ _ Hin') as [i [p [Hp Hr]]].
  rewrite Hu in Hp, Hr.
  set (g := group raw_username u df) in *.
  assert (Hs : forall q, In q (account_sorted g) -> likes q = c).
  { intros q Hq. apply account_sorted_In in Hq.
    destruct Hq as [x [Hx <-]]. now apply Hc. }
  assert (HL : map likes (account_sorted g) = repeat c (List.length g)).
  { rewrite <- (account_sorted_length g),
      <- (length_map likes (account_sorted g)).
    apply Forall_eq_repeat, Forall_forall.
    intros z Hz. apply in_map_iff in Hz.
    destruct Hz as [q [<- Hq]]. symmetry. now apply Hs. }
  rewrite HL, window_mean_repeat in Hr. rewrite Hr.
  unfold l_post_number.
  cbn [l_row post_number viral label r_post].
  rewrite (Hs p) by (eapply nth_error_In; eauto).
  destruct (Nat.ltb_spec (i + 50) (List.length g)) as [Hlt|Hge];
    destruct (Nat.leb_spec (i + 1 + 50) (List.length g)); try lia;
    [|now rewrite andb_false_r].
  rewrite andb_true_r. unfold Qltb.
  assert (Hiff : Qle_bool (inject_Z c) (mean (repeat c 50) * viral_multiplier)
                 = true <-> 0 <= c).
  { rewrite Qle_bool_iff, mean_repeat_50.
    unfold Qle, Qmult, inject_Z, viral_multiplier. simpl. lia. }
  destruct (Qle_bool (inject_Z c) (mean (repeat c 50) * viral_multiplier));
    destruct (Z.ltb_spec c 0); simpl; auto.
  - assert (0 <= c) by now apply Hiff. lia.
  - destruct Hiff as [_ Hiff]. specialize (Hiff ltac:(lia)). discriminate.
Qed.

Lemma constant_account_labels_witness :
  map viral (compute_engagement hidden) = 1 :: repeat 0 49 /\
  Forall (fun r : Labeled =>
            viral r = if (l_post_number r + 50 <=? 51)%nat then 1 else 0)
         (compute_engagement hidden).
Proof.
  split; [vm_compute; reflexivity|].
  apply Forall_forall. intros r Hin.
  assert (Hall : forallb (fun r => String.eqb (l_username r) "hidden")
                         (compute_engagement hidden) = true)
    by (vm_compute; reflexivity).
  assert (Hu : l_username r = "hidden"%string).
  { apply String.eqb_eq. revert r Hin. apply forallb_forall. exact Hall. }
  assert (Hk : List.length (group raw_username "hidden" hidden) = 51%nat)
    by (vm_compute; reflexivity).
  rewrite <- Hk.
  apply (@constant_account_labels hidden "hidden" (-1) r);
    [| right; exact Hin | exact Hu].
  intros x Hx. apply group_In in Hx. destruct Hx as [Hx _].
  unfold hidden in Hx. apply in_map_iff in Hx.
  destruct Hx as [n [<- _]]. reflexivity.
Defined.

(** * Rows without a username *)

Example ties_df_result :
  map (fun r => (l_username r, post_id (r_post (l_row r)), l_post_number r))
      (compute_engagement_df ties_df) =
  [("u", "c", 1); ("u", "a", 2); ("u", "d", 3); ("u", "b", 4); ("u", "e", 5);
   ("v", "x", 1); ("v", "y", 2)]%string%nat.
Proof. vm_compute. reflexivity. Qed.

Lemma keep_some_In (A B : Type) (f : A -> option B) (l : list A) (y : B) :
  In y (keep_some f l) <-> exists x, In x l /\ f x = Some y.
Proof.
  induction l as [|a l IH]; simpl.
  - split; [contradiction | intros [x [[] _]]].
  - destruct (f a) as [b|] eqn:E; simpl; rewrite IH; split.
    + intros [->|[x [Hx Hf]]]; eauto.
    + intros [x [[->|Hx] Hf]]; [left; congruence | eauto].
    + intros [x [Hx Hf]]; eauto.
    + intros [x [[->|Hx] Hf]]; [congruence | eauto].
Qed.

Lemma keep_some_ext_in (A B : Type) (f g : A -> option B) (l : list A) :
  (forall x, In x l -> f x = g x) -> keep_some f l = keep_some g l.
Proof.
  induction l as [|a l IH]; simpl; intros H; auto.
  rewrite <- (H a) by auto. rewrite IH by auto. reflexivity.
Qed.

Lemma keep_some_length (A B : Type) (f : A -> option B) (l : list A) :
  (List.length (keep_some f l) <= List.length l)%nat.
Proof.
  induction l as [|a l IH]; simpl; auto.
  destruct (f a); simpl; lia.
Qed.

(** Taking the rows that have a value commutes with the stable sort, when
    the two orders agree on them. *)
Section KeepSomeSort.

Variables A B : Type.
Variable f : A -> option B.
Variable le : A -> A -> bool.
Variable le' : B -> B -> bool.
Hypothesis le_total : forall a b, le a b = true \/ le b a = true.
Hypothesis le_trans :
  forall a b c, le a b = true -> le b c = true -> le a c = true.
Hypothesis le_agree :
  forall a b a' b', f a = Some a' -> f b = Some b' -> le a b = le' a' b'.

Lemma keep_some_insert_sorted (x : A) (l : list A) :
  StronglySorted (fun a b => le a b = true) l ->
  keep_some f (insert_sorted le x l) =
  match f x with
  | Some y => insert_sorted le' y (keep_some f l)
  | None => keep_some f l
  end.
Proof.
  induction 1 as [|y l Hs IH Hy]; simpl.
  - destruct (f x); reflexivity.
  - destruct (le x y) eqn:E.
    + cbn [keep_some]. destruct (f x) as [x'|] eqn:Fx; auto.
      symmetry. apply insert_sorted_front.
      apply Forall_forall. intros z' Hz'.
      change (In z' (keep_some f (y :: l))) in Hz'.
      apply keep_some_In in Hz'. destruct Hz' as [z [Hz Fz]].
      rewrite <- (le_agree Fx Fz).
      destruct Hz as [<-|Hz]; auto.
      rewrite Forall_forall in Hy. eauto.
    + cbn [keep_some]. rewrite IH.
      destruct (f y) as [y'|] eqn:Fy, (f x) as [x'|] eqn:Fx; auto.
      cbn [insert_sorted]. now rewrite <- (le_agree Fx Fy), E.
Qed.

Lemma keep_some_sort_values (l : list A) :
  keep_some f (sort_values le l) = sort_values le' (keep_some f l).
Proof.
  induction l as [|x l IH]; simpl; auto.
  rewrite keep_some_insert_sorted by now apply sort_values_sorted.
  rewrite IH. destruct (f x); reflexivity.
Qed.

End KeepSomeSort.

Lemma by_username_date_na_total (a b : CleanRow) :
  by_username_date_na a b = true \/ by_username_date_na b a = true.
Proof.
  unfold by_username_date_na.
  destruct (c_username a) as [u|], (c_username b) as [v|]; auto.
  - rewrite (String.compare_antisym v u).
    destruct (String.compare u v); simpl; auto.
    apply date_desc_le_total.
  - apply date_desc_le_total.
Qed.

Lemma by_username_date_na_trans (a b c : CleanRow) :
  by_username_date_na a b = true -> by_username_date_na b c = true ->
  by_username_date_na a c = true.
Proof.
  unfold by_username_date_na.
  destruct (c_username a) as [u|], (c_username b) as [v|],
    (c_username c) as [w|]; auto; try discriminate.
  - destruct (String.compare u v) eqn:Euv; try discriminate;
      destruct (String.compare v w) eqn:Evw; try discriminate;
      intros H1 H2.
    + apply compare_Eq_eq in Euv, Evw. subst. rewrite compare_refl.
      eapply date_desc_le_trans; eauto.
    + apply compare_Eq_eq in Euv. subst. now rewrite Evw.
    + apply compare_Eq_eq in Evw. subst. now rewrite Euv.
    + now rewrite (compare_Lt_trans _ _ _ Euv Evw).
  - apply date_desc_le_trans.
Qed.

Lemma by_username_date_na_named (a b : CleanRow) (a' b' : Post) :
  named_post a = Some a' -> named_post b = Some b' ->
  by_username_date_na a b = by_username_date a' b'.
Proof.
  unfold named_post, by_username_date_na, by_username_date, by_key_then,
    date_order.
  destruct (c_username a), (c_username b); try discriminate.
  intros Ha Hb. injection Ha as <-. injection Hb as <-. reflexivity.
Qed.

Lemma named_post_clean (df : list BronzeRow) :
  keep_some named_post (map clean df) = map normalize (named df).
Proof.
  unfold named. induction df as [|r df IH]; simpl; auto.
  unfold named_post, named_raw, clean at 1. simpl.
  destruct (b_username r); simpl; [f_equal|]; exact IH.
Qed.

Lemma same_username_count (u : string) (seen : list CleanRow) :
  List.length (filter (same_username u) seen) =
  List.length (group username u (keep_some named_post seen)).
Proof.
  induction seen as [|r seen IH]; simpl; auto.
  unfold same_username at 1, named_post at 1.
  destruct (c_username r) as [v|]; auto.
  unfold group. simpl. fold (group username u (keep_some named_post seen)).
  destruct (String.eqb v u); simpl; now rewrite IH.
Qed.

(** On the rows with a username, numbering with nulls is numbering. *)
Lemma number_named_from (seen l : list CleanRow) :
  keep_some
    (fun rn : CleanRow * option nat =>
       match named_post (fst rn), snd rn with
       | Some p, Some n => Some (mkRanked p n)
       | _, _ => None
       end)
    (combine l (map (option_map (fun n => (n + 1)%nat))
                    (cumcount_na_from seen l))) =
  map number
      (combine (keep_some named_post l)
               (cumcount_from username (keep_some named_post seen)
                              (keep_some named_post l))).
Proof.
  revert seen. induction l as [|r l IH]; intros seen; [reflexivity|].
  cbn [cumcount_na_from map combine keep_some fst snd].
  rewrite IH. cbn [keep_some].
  destruct (named_post r) as [p|] eqn:Np.
  - assert (E : c_username r = Some (username p)).
    { unfold named_post in Np. destruct (c_username r); [|discriminate].
      injection Np as <-. reflexivity. }
    rewrite E. cbn [option_map cumcount_from map combine].
    rewrite same_username_count. reflexivity.
  - reflexivity.
Qed.

Lemma groupby_filter_na_numbers (l : list CleanRow) :
  groupby_filter_na (fun x => (1 <=? List.length x)%nat)
                    (assign_post_number_na l) =
  assign_post_number (keep_some named_post l).
Proof.
  etransitivity; [|exact (number_named_from [] l)].
  unfold groupby_filter_na, assign_post_number_na, cumcount_na.
  apply keep_some_ext_in. intros [r n] Hin. cbn [fst snd].
  destruct (named_post r) as [p|] eqn:Np; auto. destruct n as [n|]; auto.
  remember (filter (fun sn : CleanRow * option nat =>
                      same_username (username p) (fst sn))
                   (combine l (map (option_map (fun n => (n + 1)%nat))
                                   (cumcount_na_from [] l)))) as g eqn:Eg.
  assert (Hg : In (r, Some n) g).
  { rewrite Eg. apply filter_In. split; auto. cbn [fst].
    unfold same_username.
    unfold named_post in Np. destruct (c_username r); [|discriminate].
    injection Np as <-. simpl. apply String.eqb_refl. }
  destruct g; [destruct Hg | reflexivity].
Qed.

(** The pipeline on the table as it comes is the pipeline on its rows
    with a username. *)
Lemma ranked_df_named (df : list BronzeRow) :
  ranked_df df = ranked (named df).
Proof.
  unfold ranked_df, ranked.
  rewrite groupby_filter_na_numbers, groupby_filter_nonempty.
  rewrite (@keep_some_sort_values _ _ named_post by_username_date_na
             by_username_date by_username_date_na_total
             by_username_date_na_trans by_username_date_na_named).
  now rewrite named_post_clean.
Qed.

Lemma labeled_df_named (df : list BronzeRow) :
  labeled_df df = labeled (named df).
Proof. unfold labeled_df. now rewrite ranked_df_named. Qed.

Lemma compute_engagement_df_named (df : list BronzeRow) :
  compute_engagement_df df = compute_engagement (named df).
Proof. unfold compute_engagement_df. now rewrite labeled_df_named. Qed.


(** ** Posts without a parsable date *)




(** ** The rows that steps 1 to 8 keep *)

(** The rows without a username are the rows that [named] leaves out. *)
Lemma named_length_nulls (df : list BronzeRow) :
  (List.length (named df) +
   List.length (filter (fun x => match b_username x with
                                 | Some _ => false
                                 | None => true
                                 end) df) = List.length df)%nat.
Proof.
  unfold named. induction df as [|x df IH]; [reflexivity|].
  cbn [keep_some filter List.length]. unfold named_raw at 1.
  destruct (b_username x); cbn [List.length]; lia.
Qed.

(** X8.  Steps 1 to 8 keep every input row that has a username exactly
    once and drop the rows whose username is null: the rows before the cap
    are the cleaned rows with a username in another order, so that no
    account is filtered out, however few posts it has (the filter of step
    5 asks for one post), the rows that are missing are as many as the
    null usernames of the input, and the result never has more rows than
    the input. *)
Theorem labeled_keeps_every_row (df : list BronzeRow) :
  Permutation (map (fun r => r_post (l_row r)) (labeled_df df))
              (map normalize (named df)) /\
  (List.length (labeled_df df) +
   List.length (filter (fun x => match b_username x with
                                 | Some _ => false
                                 | None => true
                                 end) df) = List.length df)%nat /\
  (List.length (compute_engagement_df df) <= List.length df)%nat.
Proof.
  rewrite compute_engagement_df_named, labeled_df_named.
  destruct (labeled_rows_perm (named df)) as [H1 [H2 H3]].
  assert (H4 := named_length_nulls df).
  split; [exact H1|]. split; [rewrite H2; exact H4 | lia].
Qed.
